(** * fanqie-reader: task lifecycle and realtime synchronisation

    A shallow embedding of the front end's task subsystem:
    - [DownloadTask], [TaskStatusEnum] and the REST response shapes of
      [frontend/src/api.ts];
    - the Pinia task store ([useTaskStore] of [store/index.ts]): the ordered
      in-memory collection [tasks] with its actions;
    - the [WebSocketAPI] module of [api.ts]: one socket, one subscriber slot,
      the challenge-response handshake;
    - the action handlers and the action buttons of [views/TasksView.vue];
    - the logout path of [views/HomeView.vue];
    - the session store ([useAuthStore]), the store's
      [setupWebSocketListener] and the request interceptor of [apiClient].

    Asynchronous functions are split at their [await]: the part that runs
    before the suspension and the continuation that runs on the state found
    when the awaited value arrives. *)

From Stdlib Require Import ZArith Lia Bool.
From Stdlib Require QArith.
From stdpp Require Import base list strings gmap.

Open Scope Z_scope.

(** ** JavaScript arrays as lists *)

Section Array.
Context {A : Type}.

(** [Array.prototype.findIndex]: the index of the first element that
    satisfies [p], or [-1]. *)
Fixpoint findIndex_from (p : A -> bool) (l : list A) (i : Z) : Z :=
  match l with
  | [] => -1
  | x :: l' => if p x then i else findIndex_from p l' (i + 1)
  end.

Definition findIndex (p : A -> bool) (l : list A) : Z := findIndex_from p l 0.

(** [a[index] = v] for an index that [findIndex] returned. The store only
    assigns under [index !== -1], where the index is in range
    ([findIndex_range]); an index past the end is left alone by [insert]. *)
Definition array_set (l : list A) (index : Z) (v : A) : list A :=
  <[Z.to_nat index := v]> l.

(** [a.push(v)] *)
Definition push (l : list A) (v : A) : list A := l ++ [v].

(** [Array.prototype.find] *)
Definition find (p : A -> bool) (l : list A) : option A := List.find p l.
End Array.

(** ** Data model ([api.ts]) *)

Inductive TaskStatusEnum :=
| PENDING | DOWNLOADING | PROCESSING | COMPLETED | FAILED | TERMINATED.

#[global] Instance TaskStatusEnum_eq_dec : EqDecision TaskStatusEnum.
Proof. solve_decision. Defined.

Record NovelRef := { novel_ref_id : string; title : string; author : option string }.

(** A [DownloadTask] as it sits in the collection. The declared type of [id]
    is [number]; a record that reaches the store from the socket is whatever
    the server sent, so [id] is optional here: [None] is the JavaScript
    [undefined] of a payload without the field. Task ids are database keys,
    integers. [progress] is a fraction between 0 and 1, only carried around. *)
Module DownloadTask.
Record t := mk {
  id : option Z;
  user_id : Z;
  novel_id : string;
  novel : option NovelRef;
  celery_task_id : option string;
  status : TaskStatusEnum;
  progress : QArith_base.Q;
  message : option string;
  created_at : option string;
  updated_at : option string;
  deleted : option bool;
}.
End DownloadTask.
Abbreviation DownloadTask := DownloadTask.t.

(** [t.id === n] for a number [n], and [t.id === u.id] *)
Definition id_is (n : Z) (t : DownloadTask) : bool :=
  bool_decide (DownloadTask.id t = Some n).
Definition same_id (u t : DownloadTask) : bool :=
  bool_decide (DownloadTask.id t = DownloadTask.id u).

Record ErrorResponse := { error_of : string }.
Record MessageResponse := { msg : string }.
Record TaskListResponse := { tasks_of : list DownloadTask }.
(** [MessageResponse & { task: DownloadTask }] *)
Record TaskResponse := { task_msg : string; task : DownloadTask }.

(** What an awaited REST call delivers: the promise rejects (axios throws on
    a transport error or a non-2xx status), or it yields a body that either
    has an [error] key or is the success shape. *)
Inductive Rest (A : Type) :=
| Threw
| Body (b : ErrorResponse + A).
Arguments Threw {A}.
Arguments Body {A} b.

(** The requests of [api.Tasks] the store issues. *)
Inductive Request :=
| GET_tasks_list
| POST_terminate (dbTaskId : Z)
| DELETE_task (dbTaskId : Z)
| POST_redownload (dbTaskId : Z).

#[global] Instance Request_eq_dec : EqDecision Request.
Proof. solve_decision. Defined.

(** ** The task store ([useTaskStore]) *)

Module TaskStore.

Record State := mk {
  tasks : list DownloadTask;
  isLoading : bool;
  error : option string;
}.

Definition init : State := mk [] false None.

Definition set_tasks (s : State) (l : list DownloadTask) : State :=
  mk l (isLoading s) (error s).
Definition set_error (s : State) (e : string) : State :=
  mk (tasks s) (isLoading s) (Some e).
(** the [finally] block of every action *)
Definition done_loading (s : State) : State :=
  mk (tasks s) false (error s).
(** the two assignments every action starts with *)
Definition start_loading (s : State) : State :=
  mk (tasks s) true None.

(** *** fetchTasks *)
Definition fetchTasks_call (s : State) : State * Request :=
  (start_loading s, GET_tasks_list).

Definition fetchTasks_resume (s : State) (r : Rest TaskListResponse) : State :=
  done_loading
    match r with
    | Threw => set_error s "获取任务列表失败"
    | Body (inl e) => set_error s (error_of e)
    | Body (inr response) => set_tasks s (tasks_of response)
    end.

(** *** terminateTask *)
Definition terminateTask_call (s : State) (taskId : Z) : State * Request :=
  (start_loading s, POST_terminate taskId).

Definition terminateTask_resume (s : State) (taskId : Z) (r : Rest TaskResponse)
  : State * option DownloadTask :=
  match r with
  | Threw => (done_loading (set_error s "终止任务失败"), None)
  | Body (inl e) => (done_loading (set_error s (error_of e)), None)
  | Body (inr response) =>
      let index := findIndex (id_is taskId) (tasks s) in
      let s' := if negb (index =? -1)
                then set_tasks s (array_set (tasks s) index (task response))
                else s in
      (done_loading s', Some (task response))
  end.

(** *** deleteTask *)
Definition deleteTask_call (s : State) (taskId : Z) : State * Request :=
  (start_loading s, DELETE_task taskId).

Definition deleteTask_resume (s : State) (taskId : Z) (r : Rest MessageResponse)
  : State * bool :=
  match r with
  | Threw => (done_loading (set_error s "删除任务失败"), false)
  | Body (inl e) => (done_loading (set_error s (error_of e)), false)
  | Body (inr _) =>
      (done_loading
         (set_tasks s (List.filter (fun t => negb (id_is taskId t)) (tasks s))),
       true)
  end.

(** *** redownloadTask *)
Definition redownloadTask_call (s : State) (taskId : Z) : State * Request :=
  (start_loading s, POST_redownload taskId).

Definition redownloadTask_resume (s : State) (taskId : Z) (r : Rest TaskResponse)
  : State * option DownloadTask :=
  match r with
  | Threw => (done_loading (set_error s "重新下载任务失败"), None)
  | Body (inl e) => (done_loading (set_error s (error_of e)), None)
  | Body (inr response) =>
      let index := findIndex (id_is taskId) (tasks s) in
      let s' := if negb (index =? -1)
                then set_tasks s (array_set (tasks s) index (task response))
                else s in
      (done_loading s', Some (task response))
  end.

(** *** updateTaskFromWebSocket *)
Definition updateTaskFromWebSocket (s : State) (taskData : DownloadTask) : State :=
  let index := findIndex (same_id taskData) (tasks s) in
  if negb (index =? -1)
  then set_tasks s (array_set (tasks s) index taskData)
  else set_tasks s (push (tasks s) taskData).

End TaskStore.

(** ** The Repository of the specification, read off the store

    [replaceAll] is the success path of [fetchTasks] ([this.tasks =
    response.tasks]), [upsert] is [updateTaskFromWebSocket], [all] is the
    [tasks] array and [get] looks an id up the way the store's own
    [findIndex] calls do: first entry whose [id] is strictly equal. *)

Module Repository.
Import TaskStore.

Definition all (s : State) : list DownloadTask := tasks s.

Definition get (s : State) (n : Z) : option DownloadTask :=
  find (id_is n) (tasks s).

Definition replaceAll (s : State) (l : list DownloadTask) : State :=
  fetchTasks_resume s (Body (inr {| tasks_of := l |})).

Definition upsert (s : State) (t : DownloadTask) : State :=
  updateTaskFromWebSocket s t.

(** One call of the Repository's mutators, and a sequence of them. *)
Inductive Op :=
| Upsert (t : DownloadTask)
| ReplaceAll (l : list DownloadTask).

Definition apply (s : State) (o : Op) : State :=
  match o with
  | Upsert t => upsert s t
  | ReplaceAll l => replaceAll s l
  end.

Definition run (s : State) (ops : list Op) : State := foldl apply s ops.

(** The ids of a collection, in order, and their uniqueness. *)
Definition ids (l : list DownloadTask) : list (option Z) :=
  DownloadTask.id <$> l.

Definition unique_ids (l : list DownloadTask) : Prop := NoDup (ids l).

(** The snapshots a sequence of calls installs. *)
Definition snapshots (ops : list Op) : list (list DownloadTask) :=
  omap (fun o => match o with ReplaceAll l => Some l | Upsert _ => None end) ops.

(** [updated_at] of the entry stored for an id went back: both values are
    ISO-8601 strings, which JavaScript's [<] orders code unit by code unit. *)
Definition updated_at_regressed (before after : option DownloadTask) : bool :=
  match before, after with
  | Some b, Some a =>
      match DownloadTask.updated_at b, DownloadTask.updated_at a with
      | Some old, Some new => String.ltb new old
      | _, _ => false
      end
  | _, _ => false
  end.
End Repository.

(** ** The realtime channel ([WebSocketAPI] of [api.ts])

    The module keeps two variables, [socket] and [taskUpdateCallback]. Of
    socket.io's [Socket] the module reads the [connected] flag and calls
    [connect], [disconnect] and [emit]. [socket.disconnect()] clears the flag;
    the [disconnect] event socket.io fires for it reaches the module's
    listener as an event of its own, like every other server or transport
    event. *)

Module WebSocketAPI.

Record Socket := { connected : bool }.

(** [socket.disconnect()] *)
Definition socket_disconnect (k : Socket) : Socket := {| connected := false |}.

(** The subscriber: what a call [taskUpdateCallback(taskData)] does to the
    task store. *)
Definition Callback : Type := TaskStore.State -> DownloadTask -> TaskStore.State.

Record State := mk {
  socket : option Socket;
  taskUpdateCallback : option Callback;
}.

Definition init : State := mk None None.

Definition set_socket (c : State) (k : option Socket) : State :=
  mk k (taskUpdateCallback c).

(** [socket?.connected ?? false] *)
Definition isConnected (c : State) : bool :=
  match socket c with
  | Some k => connected k
  | None => false
  end.

(** [socket?.disconnect()] *)
Definition socket_opt_disconnect (c : State) : State :=
  set_socket c (socket_disconnect <$> socket c).

Definition disconnect (c : State) : State :=
  let c1 := if isConnected c then socket_opt_disconnect c else c in
  let c2 := match socket c1 with
            | Some _ => set_socket c1 None
            | None => c1
            end in
  mk (socket c2) None.

Definition onTaskUpdate (c : State) (callback : Callback) : State :=
  mk (socket c) (Some callback).

(** The promise [connect] returns. Settling a settled promise does
    nothing. *)
Inductive Promise :=
| Pending
| Resolved (v : bool)
| Rejected (reason : string).

Definition resolve (p : Promise) (v : bool) : Promise :=
  match p with Pending => Resolved v | _ => p end.
Definition reject (p : Promise) (reason : string) : Promise :=
  match p with Pending => Rejected reason | _ => p end.

(** [ServerToClientEvents], with the three transport events the module
    listens to. socket.io sets [connected] before it fires [connect] and
    clears it before it fires [disconnect]. *)
Inductive ServerEvent :=
| ev_connect
| request_auth (message : string)
| auth_response (success : bool) (message : string)
| task_update (taskData : DownloadTask)
| connect_error (err : string)
| ev_disconnect (reason : string).

(** [ClientToServerEvents] *)
Inductive ClientEvent :=
| authenticate (token : string).

(** What happened on the wire during one [connect], oldest first. *)
Inductive Item :=
| Opened
| Received (e : ServerEvent)
| Emitted (m : ClientEvent).

(** One call [connect(token)]: the module variables, the [token] and the
    promise the listeners close over, the task store the subscriber
    writes to, and the wire log. A call that finds the socket connected
    resolves at once and installs no listener of its own. *)
Record Conn := mkConn {
  api : State;
  token : option string;
  promise : Promise;
  store : TaskStore.State;
  log : list Item;
}.

(** [if (token)]: neither [null] nor the empty string *)
Definition truthy (tok : option string) : option string :=
  match tok with
  | Some t => if bool_decide (t = "") then None else Some t
  | None => None
  end.

(** [connect(token)]. With a connected socket the call resolves and returns
    before it creates a socket or installs a listener; the events that
    follow are then handled by the listeners of the call that created the
    socket, which close over the token and the promise of that call. *)
Definition connect (c : State) (tok : option string) (st : TaskStore.State) : Conn :=
  if isConnected c then mkConn c tok (resolve Pending true) st []
  else
    let c1 := match socket c with
              | Some k => set_socket (socket_opt_disconnect c) None
              | None => c
              end in
    (* socket = io(socketUrl, { path, autoConnect: false }); listeners;
       socket.connect() *)
    mkConn (set_socket c1 (Some {| connected := false |})) tok Pending st [Opened].

Definition with_api (k : Conn) (c : State) : Conn :=
  mkConn c (token k) (promise k) (store k) (log k).
Definition with_promise (k : Conn) (p : Promise) : Conn :=
  mkConn (api k) (token k) p (store k) (log k).
Definition with_store (k : Conn) (st : TaskStore.State) : Conn :=
  mkConn (api k) (token k) (promise k) st (log k).
Definition logged (k : Conn) (i : Item) : Conn :=
  mkConn (api k) (token k) (promise k) (store k) (log k ++ [i]).

(** [socket?.emit(...)] *)
Definition socket_opt_emit (k : Conn) (m : ClientEvent) : Conn :=
  match socket (api k) with
  | Some _ => logged k (Emitted m)
  | None => k
  end.

(** The listeners [connect] installs. *)
Definition on_connect (k : Conn) : Conn :=
  with_api k (set_socket (api k)
                ((fun _ => {| connected := true |}) <$> socket (api k))).

Definition on_request_auth (k : Conn) : Conn :=
  match truthy (token k) with
  | Some t => socket_opt_emit k (authenticate t)
  | None =>
      with_promise (with_api k (socket_opt_disconnect (api k)))
        (reject (promise k) "No authentication token available.")
  end.

Definition on_auth_response (k : Conn) (success : bool) (message : string) : Conn :=
  if success then with_promise k (resolve (promise k) true)
  else
    with_promise (with_api k (socket_opt_disconnect (api k)))
      (reject (promise k) ("Authentication failed: " +:+ message)).

Definition on_task_update (k : Conn) (taskData : DownloadTask) : Conn :=
  match taskUpdateCallback (api k) with
  | Some callback => with_store k (callback (store k) taskData)
  | None => k
  end.

Definition on_connect_error (k : Conn) (err : string) : Conn :=
  let c := match socket (api k) with
           | Some _ => set_socket (socket_opt_disconnect (api k)) None
           | None => api k
           end in
  with_promise (with_api k c) (reject (promise k) err).

Definition on_disconnect (k : Conn) : Conn :=
  match socket (api k) with
  | Some _ => with_api k (set_socket (api k) None)
  | None => k
  end.

(** Delivery of one event to its listener. *)
Definition deliver (k : Conn) (e : ServerEvent) : Conn :=
  let k := logged k (Received e) in
  match e with
  | ev_connect => on_connect k
  | request_auth _ => on_request_auth k
  | auth_response success message => on_auth_response k success message
  | task_update taskData => on_task_update k taskData
  | connect_error err => on_connect_error k err
  | ev_disconnect _ => on_disconnect k
  end.

Definition deliver_all (k : Conn) (es : list ServerEvent) : Conn :=
  foldl deliver k es.

(** The handshake in a wire log: a [request_auth], later an emitted
    [authenticate] with the token, later an [auth_response] with
    [success: true]. The scan counts how many of the three steps it has
    seen, in that order. *)
Definition handshake_step (t : string) (n : nat) (i : Item) : nat :=
  match n, i with
  | 0%nat, Received (request_auth _) => 1%nat
  | 1%nat, Emitted (authenticate t') => if bool_decide (t' = t) then 2%nat else 1%nat
  | 2%nat, Received (auth_response true _) => 3%nat
  | _, _ => n
  end.

Definition handshake_steps (t : string) (l : list Item) : nat :=
  foldl (handshake_step t) 0%nat l.

Definition handshake_done (t : string) (l : list Item) : bool :=
  bool_decide (handshake_steps t l = 3%nat).

(** A server that keeps to the protocol sends [auth_response] only in
    answer to an [authenticate]: in the log an emitted [authenticate]
    precedes every [auth_response]. The scan carries whether an
    [authenticate] was emitted so far and whether every [auth_response] so
    far had one before it. *)
Definition answered_step (s : bool * bool) (i : Item) : bool * bool :=
  match i with
  | Emitted (authenticate _) => (true, s.2)
  | Received (auth_response _ _) => (s.1, s.2 && s.1)
  | _ => s
  end.

Definition answered (l : list Item) : bool * bool :=
  foldl answered_step (false, true) l.

Definition answers_only (l : list Item) : bool := (answered l).2.

(** What an event settles a pending [connect] with, if it does: the calls
    of [resolve] and [reject] in the listeners, the token being the one the
    listeners close over. *)
Definition verdict (tok : option string) (e : ServerEvent) : option Promise :=
  match e with
  | auth_response true _ => Some (Resolved true)
  | auth_response false message =>
      Some (Rejected ("Authentication failed: " +:+ message))
  | connect_error err => Some (Rejected err)
  | request_auth _ =>
      match truthy tok with
      | Some _ => None
      | None => Some (Rejected "No authentication token available.")
      end
  | _ => None
  end.

(** The verdict of the first event of a sequence that has one. *)
Definition first_verdict (tok : option string) (es : list ServerEvent) : option Promise :=
  head (omap (verdict tok) es).

End WebSocketAPI.

(** ** The session ([useAuthStore] and the [accessToken] of localStorage) *)

Record UserProfile := { profile_id : Z; username : string }.
Record LoginResponse := { access_token : string }.

Module AuthStore.

Record State := mk {
  user : option UserProfile;
  isAuthenticated : bool;
  isLoading : bool;
  error : option string;
  accessToken : option string;   (* localStorage.getItem('accessToken') *)
}.

Definition logout (a : State) : State :=
  mk None false (isLoading a) (error a) None.

(** *** fetchUser *)
Definition fetchUser_call (a : State) : State :=
  mk (user a) (isAuthenticated a) true (error a) (accessToken a).

Definition fetchUser_resume (a : State) (r : Rest UserProfile) : State :=
  match r with
  | Threw => mk None false false (error a) (accessToken a)
  | Body (inl e) => mk None false false (Some (error_of e)) (accessToken a)
  | Body (inr response) => mk (Some response) true false (error a) (accessToken a)
  end.

(** *** login

    [login_resume] runs from the answer of [api.Auth.login] to the next
    suspension: on a failure the call is over and has returned [false]; on
    success the token is stored and [fetchUser] is under way. [login_finish]
    runs from the answer [fetchUser] was waiting for to the [return true].
    [fetchUser] catches its own failures, so the [catch] of [login] is only
    entered from the first [await]. *)
Definition login_call (a : State) : State :=
  mk (user a) (isAuthenticated a) true None (accessToken a).

Definition login_resume (a : State) (r : Rest LoginResponse) : State * option bool :=
  match r with
  | Threw =>
      (mk (user a) (isAuthenticated a) false (Some "登录失败，请重试") (accessToken a),
       Some false)
  | Body (inl e) =>
      (mk (user a) (isAuthenticated a) false (Some (error_of e)) (accessToken a),
       Some false)
  | Body (inr response) =>
      (fetchUser_call
         (mk (user a) (isAuthenticated a) (isLoading a) (error a)
            (Some (access_token response))),
       None)
  end.

Definition login_finish (a : State) (r : Rest UserProfile) : State * bool :=
  let a1 := fetchUser_resume a r in
  (mk (user a1) (isAuthenticated a1) false (error a1) (accessToken a1), true).

(** *** register *)
Definition register_call (a : State) : State :=
  mk (user a) (isAuthenticated a) true None (accessToken a).

Definition register_resume (a : State) (r : Rest MessageResponse) : State * bool :=
  match r with
  | Threw =>
      (mk (user a) (isAuthenticated a) false (Some "注册失败，请重试") (accessToken a),
       false)
  | Body (inl e) =>
      (mk (user a) (isAuthenticated a) false (Some (error_of e)) (accessToken a),
       false)
  | Body (inr _) =>
      (mk (user a) (isAuthenticated a) false (error a) (accessToken a), true)
  end.

(** *** checkAuth: [if (token) this.fetchUser()], not awaited *)
Definition checkAuth (a : State) : State :=
  match WebSocketAPI.truthy (accessToken a) with
  | Some _ => fetchUser_call a
  | None => a
  end.

(** What can happen to the session store, one step at a time: an action is
    called, or an awaited answer arrives and the action goes on from the
    state it finds. *)
Inductive Event :=
| login_called
| login_replied (r : Rest LoginResponse)
| fetchUser_called
| fetchUser_replied (r : Rest UserProfile)
| register_called
| register_replied (r : Rest MessageResponse)
| logout_called
| checkAuth_called.

Definition step (a : State) (e : Event) : State :=
  match e with
  | login_called => login_call a
  | login_replied r => (login_resume a r).1
  | fetchUser_called => fetchUser_call a
  | fetchUser_replied r => fetchUser_resume a r
  | register_called => register_call a
  | register_replied r => (register_resume a r).1
  | logout_called => logout a
  | checkAuth_called => checkAuth a
  end.

Definition steps (a : State) (es : list Event) : State := foldl step a es.

Definition init : State := mk None false false None None.

End AuthStore.

(** ** Logging out ([views/HomeView.vue]) *)

Module HomeView.

Record State := mk {
  authStore : AuthStore.State;
  channel : WebSocketAPI.State;
}.

(** [if (api.WebSocketAPI.isConnected()) { api.WebSocketAPI.disconnect() }] *)
Definition disconnect_if_connected (c : WebSocketAPI.State) : WebSocketAPI.State :=
  if WebSocketAPI.isConnected c then WebSocketAPI.disconnect c else c.

(** [handleCommand('logout')], once the user has confirmed. *)
Definition handleCommand_logout (v : State) : State :=
  let a := AuthStore.logout (authStore v) in
  mk a (disconnect_if_connected (channel v)).

(** The watcher on [authStore.isAuthenticated], for the new value
    [false]. *)
Definition watch_unauthenticated (v : State) : State :=
  mk (authStore v) (disconnect_if_connected (channel v)).

(** A logout: the handler, then the watcher when the flag changed. *)
Definition logout (v : State) : State :=
  let v1 := handleCommand_logout v in
  if AuthStore.isAuthenticated (authStore v) then watch_unauthenticated v1 else v1.

End HomeView.

(** ** The task actions ([views/TasksView.vue]) *)

Module TasksView.

Inductive Action := terminate | delete | redownload.

#[global] Instance Action_eq_dec : EqDecision Action.
Proof. solve_decision. Defined.

(** *** The template: which buttons a row has *)

(** [!row.deleted] *)
Definition not_deleted (row : DownloadTask) : bool :=
  match DownloadTask.deleted row with
  | Some true => false
  | _ => true
  end.

(** The [v-if] conditions of the button group and of each button. *)
Definition offered (a : Action) (row : DownloadTask) : bool :=
  not_deleted row &&
  match a with
  | terminate =>
      bool_decide (DownloadTask.status row ∈ [PENDING; DOWNLOADING; PROCESSING])
  | redownload =>
      bool_decide (DownloadTask.status row ∈ [COMPLETED; FAILED; TERMINATED])
  | delete => true
  end.

(** *** The script *)

Record Refs := mkRefs {
  activeTaskId : option Z;
  actionType : option Action;
}.

(** [:loading="row.id === activeTaskId && actionType === '...'"], the one
    place that reads the two refs. *)
Definition loading (r : Refs) (a : Action) (row : DownloadTask) : bool :=
  bool_decide (activeTaskId r = DownloadTask.id row /\ DownloadTask.id row <> None) &&
  bool_decide (actionType r = Some a).

(** Where a running handler is suspended. *)
Inductive Phase :=
| AwaitConfirm     (* await ElMessageBox.confirm(...) *)
| AwaitRest        (* await taskStore.<action>Task(taskId) *)
| Finished.

#[global] Instance Phase_eq_dec : EqDecision Phase.
Proof. solve_decision. Defined.

Record Call := mkCall {
  call_action : Action;
  call_taskId : Z;
  call_phase : Phase;
}.

(** [ElMessage.success] and [ElMessage.error] *)
Inductive Toast :=
| success (text : string)
| failure (text : string).

Record State := mk {
  refs : Refs;
  taskStore : TaskStore.State;
  calls : list Call;          (* every handler invocation so far *)
  requests : list Request;    (* the REST calls issued, oldest first *)
  toasts : list Toast;
}.

Definition init (st : TaskStore.State) : State :=
  mk (mkRefs None None) st [] [] [].

(** What the awaited store action delivers to the handler. *)
Inductive Reply :=
| task_reply (r : Rest TaskResponse)
| message_reply (r : Rest MessageResponse).

(** The store action a handler calls, up to its [await]. *)
Definition store_call (st : TaskStore.State) (a : Action) (taskId : Z)
  : TaskStore.State * Request :=
  match a with
  | terminate => TaskStore.terminateTask_call st taskId
  | delete => TaskStore.deleteTask_call st taskId
  | redownload => TaskStore.redownloadTask_call st taskId
  end.

(** The rest of the store action; [result] is whether the handler's
    [if (result)] holds. A reply of the other action's shape does not
    occur. *)
Definition store_resume (st : TaskStore.State) (a : Action) (taskId : Z) (r : Reply)
  : option (TaskStore.State * bool) :=
  match a, r with
  | terminate, task_reply r =>
      let '(st', res) := TaskStore.terminateTask_resume st taskId r in
      Some (st', bool_decide (is_Some res))
  | redownload, task_reply r =>
      let '(st', res) := TaskStore.redownloadTask_resume st taskId r in
      Some (st', bool_decide (is_Some res))
  | delete, message_reply r =>
      let '(st', res) := TaskStore.deleteTask_resume st taskId r in
      Some (st', res)
  | _, _ => None
  end.

Definition success_text (a : Action) : string :=
  match a with
  | terminate => "任务已终止"
  | delete => "任务已删除"
  | redownload => "任务已重新添加到下载队列"
  end.

(** The [finally] block of the three handlers. *)
Definition clear_refs : Refs := mkRefs None None.

Definition set_phase (cs : list Call) (k : nat) (p : Phase) : list Call :=
  alter (fun c => mkCall (call_action c) (call_taskId c) p) k cs.

(** A handler up to its first [await]: [terminateTask(taskId)] and
    [deleteTask(taskId)] set the refs and wait for the confirmation dialog;
    [redownloadTask(taskId)] sets the refs and calls the store at once. *)
Definition invoke (v : State) (a : Action) (taskId : Z) : State :=
  let r := mkRefs (Some taskId) (Some a) in
  match a with
  | redownload =>
      let '(st, q) := store_call (taskStore v) a taskId in
      mk r st (calls v ++ [mkCall a taskId AwaitRest]) (requests v ++ [q]) (toasts v)
  | _ =>
      mk r (taskStore v) (calls v ++ [mkCall a taskId AwaitConfirm])
        (requests v) (toasts v)
  end.

(** The dialog of call [k] is answered. *)
Definition confirm (v : State) (k : nat) (ok : bool) : State :=
  match calls v !! k with
  | Some (mkCall a taskId AwaitConfirm) =>
      if ok then
        let '(st, q) := store_call (taskStore v) a taskId in
        mk (refs v) st (set_phase (calls v) k AwaitRest) (requests v ++ [q]) (toasts v)
      else
        (* catch (err): err === 'cancel'; finally *)
        mk clear_refs (taskStore v) (set_phase (calls v) k Finished)
          (requests v) (toasts v)
  | _ => v
  end.

(** The REST call of call [k] is answered. The store actions catch every
    failure themselves, so the handler's own [catch] is not entered
    here. *)
Definition reply (v : State) (k : nat) (r : Reply) : State :=
  match calls v !! k with
  | Some (mkCall a taskId AwaitRest) =>
      match store_resume (taskStore v) a taskId r with
      | Some (st, result) =>
          mk clear_refs st (set_phase (calls v) k Finished) (requests v)
            (if result then toasts v ++ [success (success_text a)] else toasts v)
      | None => v
      end
  | _ => v
  end.

Inductive Event :=
| Invoke (a : Action) (taskId : Z)
| Confirm (k : nat) (ok : bool)
| Replied (k : nat) (r : Reply).

Definition step (v : State) (e : Event) : State :=
  match e with
  | Invoke a taskId => invoke v a taskId
  | Confirm k ok => confirm v k ok
  | Replied k r => reply v k r
  end.

Definition steps (v : State) (es : list Event) : State := foldl step v es.

(** The calls that have issued their REST request and not yet got the
    answer. *)
Definition in_flight (v : State) : list Call :=
  List.filter (fun c => bool_decide (call_phase c = AwaitRest)) (calls v).

Definition request_of (a : Action) (taskId : Z) : Request :=
  match a with
  | terminate => POST_terminate taskId
  | delete => DELETE_task taskId
  | redownload => POST_redownload taskId
  end.

(** *** Display helpers of the script and the progress column *)

(** The wire values of [TaskStatusEnum] ([api.ts]); the helpers below take
    the status as the string it is. *)
Definition wire (s : TaskStatusEnum) : string :=
  match s with
  | PENDING => "PENDING"
  | DOWNLOADING => "DOWNLOADING"
  | PROCESSING => "PROCESSING"
  | COMPLETED => "COMPLETED"
  | FAILED => "FAILED"
  | TERMINATED => "TERMINATED"
  end.

Definition getStatusType (status : string) : string :=
  if bool_decide (status = "COMPLETED") then "success"
  else if bool_decide (status = "FAILED") then "danger"
  else if bool_decide (status = "TERMINATED") then "warning"
  else if bool_decide (status = "DOWNLOADING") then "primary"
  else if bool_decide (status = "PROCESSING") then "primary"
  else "info".

Definition getStatusText (status : string) : string :=
  if bool_decide (status = "PENDING") then "等待中"
  else if bool_decide (status = "DOWNLOADING") then "下载中"
  else if bool_decide (status = "PROCESSING") then "处理中"
  else if bool_decide (status = "COMPLETED") then "已完成"
  else if bool_decide (status = "FAILED") then "失败"
  else if bool_decide (status = "TERMINATED") then "已终止"
  else status.

Definition getProgressStatus (status : string) : string :=
  if bool_decide (status = "DOWNLOADING") then "success"
  else if bool_decide (status = "PROCESSING") then ""
  else if bool_decide (status = "FAILED") then "exception"
  else if bool_decide (status = "TERMINATED") then "warning"
  else "".

(** The [v-if] chain of the progress column, by the class of the block it
    renders. *)
Inductive ProgressBlock :=
| task_progress_info
| task_completed
| task_failed
| task_terminated
| task_pending.

Definition progress_block (row : DownloadTask) : ProgressBlock :=
  if bool_decide (DownloadTask.status row ∈ [DOWNLOADING; PROCESSING])
  then task_progress_info
  else if bool_decide (DownloadTask.status row = COMPLETED) then task_completed
  else if bool_decide (DownloadTask.status row = FAILED) then task_failed
  else if bool_decide (DownloadTask.status row = TERMINATED) then task_terminated
  else task_pending.

End TasksView.

(** ** Everything that writes the task store, as events *)

Module TaskEvents.

Inductive Event :=
| called (q : Request)
| fetched (r : Rest TaskListResponse)
| terminated (taskId : Z) (r : Rest TaskResponse)
| deleted (taskId : Z) (r : Rest MessageResponse)
| redownloaded (taskId : Z) (r : Rest TaskResponse)
| pushed (taskData : DownloadTask).

Definition on (s : TaskStore.State) (e : Event) : TaskStore.State :=
  match e with
  | called _ => TaskStore.start_loading s
  | fetched r => TaskStore.fetchTasks_resume s r
  | terminated taskId r => (TaskStore.terminateTask_resume s taskId r).1
  | deleted taskId r => (TaskStore.deleteTask_resume s taskId r).1
  | redownloaded taskId r => (TaskStore.redownloadTask_resume s taskId r).1
  | pushed taskData => TaskStore.updateTaskFromWebSocket s taskData
  end.

Definition run (s : TaskStore.State) (es : list Event) : TaskStore.State :=
  foldl on s es.

(** What the server is expected to send: snapshots without a repeated id,
    and for [terminate] and [redownload] the record of the task that was
    asked for. *)
Definition expected (e : Event) : Prop :=
  match e with
  | fetched (Body (inr response)) => Repository.unique_ids (tasks_of response)
  | terminated taskId (Body (inr response))
  | redownloaded taskId (Body (inr response)) =>
      DownloadTask.id (task response) = Some taskId
  | _ => True
  end.

End TaskEvents.

(** ** [setupWebSocketListener] of the task store

    [connect(token).then(register).catch(log)]. The [then] callback is a
    microtask: it runs once, after the promise is settled, when the job in
    which that happened is over. The events socket.io dispatches within one
    job reach the listeners one after the other with nothing in between, so
    an event that follows the settling one in the same job is handled
    before the callback has run. *)

Module Realtime.
Import WebSocketAPI.

Record Listener := mkListener {
  conn : Conn;
  then_pending : bool;
}.

(** [api.WebSocketAPI.onTaskUpdate(this.updateTaskFromWebSocket)] *)
Definition register (k : Conn) : Conn :=
  with_api k (onTaskUpdate (api k) TaskStore.updateTaskFromWebSocket).

(** The end of a job: the [then] callback, or the [catch] callback, runs if
    it is still to run and the promise is settled. *)
Definition run_then (l : Listener) : Listener :=
  if then_pending l then
    match promise (conn l) with
    | Pending => l
    | Resolved _ => mkListener (register (conn l)) false
    | Rejected _ => mkListener (conn l) false
    end
  else l.

Definition setupWebSocketListener
    (accessToken : option string) (c : State) (st : TaskStore.State) : option Listener :=
  match truthy accessToken with
  | None => None
  | Some t => Some (run_then (mkListener (connect c (Some t) st) true))
  end.

(** One job: the events dispatched in it, then the microtasks. *)
Definition on_job (l : Listener) (job : list ServerEvent) : Listener :=
  run_then (mkListener (deliver_all (conn l) job) (then_pending l)).

Definition on_jobs (l : Listener) (jobs : list (list ServerEvent)) : Listener :=
  foldl on_job l jobs.

(** The payloads of the [task_update] events of a sequence, in order. *)
Definition task_updates (es : list ServerEvent) : list DownloadTask :=
  omap (fun e => match e with task_update d => Some d | _ => None end) es.

End Realtime.

(** ** The request interceptor of [apiClient] ([api.ts]) *)

Module ApiClient.

Record RequestConfig := mkConfig {
  url : option string;
  headers : gmap string string;
}.

Definition publicPaths : list string := ["/auth/login"; "/auth/register"].

(** [!!config.url && publicPaths.includes(config.url)] *)
Definition isPublicPath (config : RequestConfig) : bool :=
  match url config with
  | Some u => negb (bool_decide (u = "")) && bool_decide (u ∈ publicPaths)
  | None => false
  end.

(** The interceptor, given what [localStorage.getItem('accessToken')]
    answers. *)
Definition interceptor (accessToken : option string) (config : RequestConfig)
  : RequestConfig :=
  if negb (isPublicPath config) then
    match WebSocketAPI.truthy accessToken with
    | Some token =>
        mkConfig (url config)
          (<["Authorization" := "Bearer " +:+ token]> (headers config))
    | None => config
    end
  else config.

End ApiClient.

(** ** Sample records *)

Module Sample.
Definition novel7 : NovelRef :=
  {| novel_ref_id := "7"; title := "T"; author := None |}.

(** A task of user 1 for novel 7 with the given id, status and timestamp. *)
Definition task (i : option Z) (st : TaskStatusEnum) (upd : string) : DownloadTask :=
  DownloadTask.mk i 1 "7" (Some novel7) None st (QArith_base.Qmake 0 1) None
    (Some "2024-05-01T09:00:00") (Some upd) None.

Definition t1_pending : DownloadTask := task (Some 1) PENDING "2024-05-01T09:00:00".
Definition t1_downloading : DownloadTask := task (Some 1) DOWNLOADING "2024-05-01T09:00:05".
Definition t1_fresh : DownloadTask := task (Some 1) COMPLETED "2024-05-02T10:00:00".
Definition t1_stale : DownloadTask := task (Some 1) DOWNLOADING "2024-05-01T10:00:00".
Definition t2_downloading : DownloadTask := task (Some 2) DOWNLOADING "2024-05-01T09:30:00".
Definition t3_completed : DownloadTask := task (Some 3) COMPLETED "2024-05-01T09:40:00".
Definition t5_terminated : DownloadTask := task (Some 5) TERMINATED "2024-05-01T09:50:00".
Definition no_id : DownloadTask := task None DOWNLOADING "2024-05-01T09:45:00".

Definition store_of (l : list DownloadTask) : TaskStore.State :=
  TaskStore.mk l false None.
End Sample.

(** * Properties *)

(** ** Arrays *)

Section ArrayFacts.
Context {A : Type}.
Implicit Types (p : A -> bool) (l : list A).

Lemma findIndex_from_shift p l i :
  findIndex_from p l i = -1 /\ findIndex p l = -1 \/
  findIndex_from p l i = i + findIndex p l /\ 0 <= findIndex p l.
Proof.
  unfold findIndex. revert i. induction l as [|x l IH]; intros i; simpl.
  - left. done.
  - destruct (p x).
    + right. lia.
    + destruct (IH (i + 1)) as [[Hi ?]|[Hi ?]], (IH (0 + 1)) as [[E ?]|[E ?]];
        rewrite Hi, E; lia.
Qed.

Lemma findIndex_cons p x l :
  findIndex p (x :: l) =
    if p x then 0
    else if findIndex p l =? -1 then -1 else 1 + findIndex p l.
Proof.
  unfold findIndex at 1. simpl. destruct (p x); [done|].
  destruct (findIndex_from_shift p l (0 + 1)) as [[-> ->]|[-> ?]]; [done|].
  destruct (Z.eqb_spec (findIndex p l) (-1)); lia.
Qed.

(** [findIndex] answers [-1] or an index of the array. *)
Lemma findIndex_range p l :
  findIndex p l = -1 \/ 0 <= findIndex p l < Z.of_nat (length l).
Proof.
  induction l as [|x l IH]; [by left|].
  rewrite findIndex_cons. destruct (p x); [right; simpl; lia|].
  destruct (Z.eqb_spec (findIndex p l) (-1)); [by left|].
  right. simpl length. lia.
Qed.

(** [-1] exactly when no element satisfies the predicate. *)
Lemma findIndex_none p l :
  findIndex p l = -1 <-> Forall (fun x => p x = false) l.
Proof.
  induction l as [|x l IH]; [by split; [constructor|]|].
  rewrite findIndex_cons, Forall_cons. destruct (p x) eqn:E.
  - split; [lia|]. intros [? _]. done.
  - destruct (Z.eqb_spec (findIndex p l) (-1)) as [H|H].
    + split; [|done]. intros _. split; [done|]. by apply IH.
    + split; [destruct (findIndex_range p l); lia|].
      intros [_ F]. apply IH in F. done.
Qed.

(** Otherwise it is the first position whose element satisfies it. *)
Lemma findIndex_first p l i :
  findIndex p l = Z.of_nat i ->
  (exists x, l !! i = Some x /\ p x = true) /\
  (forall j y, (j < i)%nat -> l !! j = Some y -> p y = false).
Proof.
  revert i. induction l as [|x l IH]; intros i.
  - unfold findIndex. simpl. lia.
  - rewrite findIndex_cons. destruct (p x) eqn:E.
    + intros H. assert (i = 0%nat) as -> by lia. split; [by exists x|].
      intros j y ?. lia.
    + destruct (Z.eqb_spec (findIndex p l) (-1)) as [H|H]; [lia|].
      intros Hi. destruct i as [|i]; [destruct (findIndex_range p l); lia|].
      destruct (IH i) as [Hx Hlt]; [lia|]. split; [done|].
      intros [|j] y Hj; simpl; [by intros [= <-]|].
      apply Hlt. lia.
Qed.

Lemma findIndex_some p l :
  findIndex p l <> -1 -> exists i : nat, findIndex p l = Z.of_nat i.
Proof.
  intros H. exists (Z.to_nat (findIndex p l)).
  destruct (findIndex_range p l); lia.
Qed.

(** [find] and [findIndex] agree. *)
Lemma find_findIndex p l i :
  findIndex p l = Z.of_nat i -> find p l = l !! i.
Proof.
  revert i. induction l as [|x l IH]; intros i.
  - unfold findIndex. simpl. lia.
  - rewrite findIndex_cons. unfold find in *. simpl. destruct (p x).
    + intros H. by assert (i = 0%nat) as -> by lia.
    + destruct (Z.eqb_spec (findIndex p l) (-1)) as [H|H]; [lia|].
      intros Hi. destruct i as [|i]; [destruct (findIndex_range p l); lia|].
      simpl. apply IH. lia.
Qed.

Lemma find_none p l :
  findIndex p l = -1 -> find p l = None.
Proof.
  rewrite findIndex_none. unfold find.
  induction 1 as [|x l E _ IH]; simpl; [done|]. by rewrite E.
Qed.

Lemma find_pointwise p q l :
  (forall x, p x = q x) -> find p l = find q l.
Proof.
  intros H. unfold find. induction l as [|x l IH]; simpl; [done|].
  by rewrite H, IH.
Qed.
End ArrayFacts.

(** ** The task store *)

Section StoreFacts.
Import TaskStore Repository.
Implicit Types (s : State) (u t : DownloadTask) (l : list DownloadTask).

Lemma same_id_true u t :
  same_id u t = true <-> DownloadTask.id t = DownloadTask.id u.
Proof. unfold same_id. by rewrite bool_decide_eq_true. Qed.

Lemma same_id_false u t :
  same_id u t = false <-> DownloadTask.id t <> DownloadTask.id u.
Proof. unfold same_id. by rewrite bool_decide_eq_false. Qed.

Lemma id_is_true n t : id_is n t = true <-> DownloadTask.id t = Some n.
Proof. unfold id_is. by rewrite bool_decide_eq_true. Qed.

Lemma id_is_false n t : id_is n t = false <-> DownloadTask.id t <> Some n.
Proof. unfold id_is. by rewrite bool_decide_eq_false. Qed.

Lemma id_is_same_id n u :
  DownloadTask.id u = Some n -> forall t, id_is n t = same_id u t.
Proof. intros E t. unfold id_is, same_id. by rewrite E. Qed.

(** The two branches of [updateTaskFromWebSocket]. *)
Lemma upsert_known s u (i : nat) :
  findIndex (same_id u) (tasks s) = Z.of_nat i ->
  tasks (upsert s u) = <[i := u]> (tasks s).
Proof.
  intros E. unfold upsert, updateTaskFromWebSocket. rewrite E.
  destruct (Z.eqb_spec (Z.of_nat i) (-1)); [lia|]. simpl.
  unfold array_set. by rewrite Nat2Z.id.
Qed.

Lemma upsert_unknown s u :
  findIndex (same_id u) (tasks s) = -1 ->
  tasks (upsert s u) = tasks s ++ [u].
Proof.
  intros E. unfold upsert, updateTaskFromWebSocket. by rewrite E.
Qed.

(** A position is the one [findIndex] reports when it holds the id and no
    earlier position does. *)
Lemma findIndex_is_first p (l : list DownloadTask) (i : nat) t :
  l !! i = Some t -> p t = true ->
  (forall j t', (j < i)%nat -> l !! j = Some t' -> p t' = false) ->
  findIndex p l = Z.of_nat i.
Proof.
  intros Hi Hp Hlt.
  destruct (findIndex_range p l) as [E|R].
  - apply findIndex_none in E. rewrite Forall_lookup in E.
    specialize (E _ _ Hi). simpl in E. congruence.
  - destruct (findIndex_some p l) as [k Ek]; [lia|].
    destruct (findIndex_first p l k Ek) as [[x [Hx Hpx]] Hk].
    destruct (Nat.lt_trichotomy k i) as [Lt|[->|Gt]]; [|done|].
    + specialize (Hlt _ _ Lt Hx). congruence.
    + specialize (Hk _ _ Gt Hi). congruence.
Qed.

Lemma findIndex_absent p (l : list DownloadTask) :
  (forall t, t ∈ l -> p t = false) -> findIndex p l = -1.
Proof. intros H. apply findIndex_none, Forall_forall, H. Qed.

(** What is stored under the incoming id afterwards is the incoming
    record. *)
Lemma upsert_stores s u : find (same_id u) (tasks (upsert s u)) = Some u.
Proof.
  destruct (findIndex_range (same_id u) (tasks s)) as [E|R].
  - rewrite (upsert_unknown _ _ E). unfold find.
    apply findIndex_none in E. induction E as [|x l Hx _ IH]; simpl.
    + assert (same_id u u = true) as -> by by apply same_id_true. done.
    + by rewrite Hx.
  - destruct (findIndex_some (same_id u) (tasks s)) as [i Ei]; [lia|].
    rewrite (upsert_known _ _ _ Ei).
    destruct (findIndex_first _ _ _ Ei) as [[x [Hx Hpx]] Hlt].
    assert (Hlen : (i < length (tasks s))%nat) by (eapply lookup_lt_Some; eauto).
    rewrite (find_findIndex _ _ i); [by apply list_lookup_insert_eq|].
    apply (findIndex_is_first _ _ _ u).
    + by apply list_lookup_insert_eq.
    + by apply same_id_true.
    + intros j t' Hj. rewrite list_lookup_insert_ne by lia. by apply Hlt.
Qed.

(** [updateTaskFromWebSocket] keeps the ids of the collection distinct. *)
Lemma upsert_unique_ids s u :
  unique_ids (tasks s) -> unique_ids (tasks (upsert s u)).
Proof.
  unfold unique_ids, ids. intros ND.
  destruct (findIndex_range (same_id u) (tasks s)) as [E|R].
  - rewrite (upsert_unknown _ _ E), fmap_app. simpl.
    apply NoDup_app. split; [done|]. split; [|apply NoDup_singleton].
    intros x Hx ->%list_elem_of_singleton.
    apply list_elem_of_fmap in Hx as [t [Ht Hin]].
    apply findIndex_none in E. rewrite Forall_forall in E.
    specialize (E _ Hin). simpl in E. apply same_id_false in E. congruence.
  - destruct (findIndex_some (same_id u) (tasks s)) as [i Ei]; [lia|].
    rewrite (upsert_known _ _ _ Ei).
    destruct (findIndex_first _ _ _ Ei) as [[x [Hx Hpx]] _].
    apply same_id_true in Hpx.
    rewrite list_fmap_insert, list_insert_id; [done|].
    by rewrite list_lookup_fmap, Hx, <- Hpx.
Qed.

Lemma replaceAll_tasks s l : tasks (replaceAll s l) = l.
Proof. done. Qed.

Lemma run_snoc s ops o : run s (ops ++ [o]) = apply (run s ops) o.
Proof. unfold run. by rewrite foldl_app. Qed.
End StoreFacts.

(** ** The Repository: merge, uniqueness, timestamps *)

Section RepositoryClaims.
Import TaskStore Repository.
Implicit Types (s : State) (u t : DownloadTask) (l : list DownloadTask).

(** C5. [upsert] of a task whose id is already stored overwrites the first
    entry with that id in place: the collection keeps its length, the
    position now holds the incoming record and every other position is
    unchanged. [upsert] of an unknown id appends the record at the tail.
    After [replaceAll([{id:1,status:PENDING}])] and
    [upsert({id:1,status:DOWNLOADING})], [get(1).status] is [DOWNLOADING]
    and [all()] has length 1. *)
Theorem upsert_in_place_or_append s u :
  (forall (i : nat) t,
      all s !! i = Some t ->
      DownloadTask.id t = DownloadTask.id u ->
      (forall (j : nat) t', (j < i)%nat -> all s !! j = Some t' ->
                            DownloadTask.id t' <> DownloadTask.id u) ->
      all (upsert s u) = <[i := u]> (all s) /\
      length (all (upsert s u)) = length (all s) /\
      all (upsert s u) !! i = Some u /\
      forall j : nat, j <> i -> all (upsert s u) !! j = all s !! j) /\
  ((forall t, t ∈ all s -> DownloadTask.id t <> DownloadTask.id u) ->
   all (upsert s u) = all s ++ [u]) /\
  (let r := upsert (replaceAll s [Sample.t1_pending]) Sample.t1_downloading in
   DownloadTask.status <$> get r 1 = Some DOWNLOADING /\ length (all r) = 1%nat).
Proof.
  unfold all. split; [|split].
  - intros i t Hi Hid Hfirst.
    assert (E : findIndex (same_id u) (tasks s) = Z.of_nat i).
    { apply (findIndex_is_first _ _ _ t); [done|by apply same_id_true|].
      intros j t' Hj Hj'. apply same_id_false. eauto. }
    rewrite (upsert_known _ _ _ E).
    assert (i < length (tasks s))%nat by (eapply lookup_lt_Some; eauto).
    split; [done|]. split; [by rewrite length_insert|].
    split; [by apply list_lookup_insert_eq|].
    intros j Hj. by apply list_lookup_insert_ne.
  - intros Hnew. apply upsert_unknown, findIndex_absent.
    intros t Ht. apply same_id_false. by apply Hnew.
  - done.
Qed.

Lemma upsert_in_place_or_append_witness :
  all (upsert (Sample.store_of [Sample.t1_pending; Sample.t2_downloading])
         (Sample.task (Some 2) PROCESSING "2024-05-01T09:31:00"))
  = [Sample.t1_pending; Sample.task (Some 2) PROCESSING "2024-05-01T09:31:00"] /\
  all (upsert (Sample.store_of [Sample.t1_pending]) Sample.t2_downloading)
  = [Sample.t1_pending; Sample.t2_downloading].
Proof.
  split.
  - refine (proj1 (proj1 (upsert_in_place_or_append
              (Sample.store_of [Sample.t1_pending; Sample.t2_downloading])
              (Sample.task (Some 2) PROCESSING "2024-05-01T09:31:00"))
              1%nat Sample.t2_downloading _ _ _)).
    + reflexivity.
    + reflexivity.
    + intros [|j] t' Hj; [|lia]. intros [= <-]. discriminate.
  - refine (proj1 (proj2 (upsert_in_place_or_append
              (Sample.store_of [Sample.t1_pending]) Sample.t2_downloading)) _).
    intros t Ht. apply list_elem_of_singleton in Ht as ->. discriminate.
Defined.

(** C1, as the store has it. No update path compares [updated_at]; each
    stores what arrives. After [updateTaskFromWebSocket] the entry found
    under the incoming id is the incoming record, with its [updated_at],
    older or not; a snapshot replaces the collection by the snapshot; a
    successful terminate or redownload puts the server's record at the
    position found for [taskId]. *)
Theorem updates_are_last_write_wins s :
  (forall u, find (same_id u) (all (upsert s u)) = Some u) /\
  (forall l, all (replaceAll s l) = l) /\
  (forall taskId response (i : nat),
      findIndex (id_is taskId) (tasks s) = Z.of_nat i ->
      tasks (terminateTask_resume s taskId (Body (inr response))).1 !! i
        = Some (task response) /\
      tasks (redownloadTask_resume s taskId (Body (inr response))).1 !! i
        = Some (task response)).
Proof.
  split; [|split].
  - intros u. apply upsert_stores.
  - done.
  - intros taskId response i E.
    destruct (findIndex_first _ _ _ E) as [[x [Hx _]] _].
    assert (i < length (tasks s))%nat by (eapply lookup_lt_Some; eauto).
    unfold terminateTask_resume, redownloadTask_resume. rewrite E.
    destruct (Z.eqb_spec (Z.of_nat i) (-1)); [lia|]. simpl.
    unfold array_set. rewrite Nat2Z.id.
    split; by apply list_lookup_insert_eq.
Qed.

Lemma updates_are_last_write_wins_witness :
  tasks (terminateTask_resume
           (Sample.store_of [Sample.t1_pending; Sample.t5_terminated]) 5
           (Body (inr {| task_msg := "ok"; task := Sample.t5_terminated |}))).1 !! 1%nat
  = Some Sample.t5_terminated.
Proof.
  refine (proj1 (proj2 (proj2 (updates_are_last_write_wins
            (Sample.store_of [Sample.t1_pending; Sample.t5_terminated])))
            5 {| task_msg := "ok"; task := Sample.t5_terminated |} 1%nat _)).
  reflexivity.
Defined.

(** C1, counterexample. The store holds task 1 with [updated_at]
    2024-05-02T10:00:00; a push for task 1 with [updated_at]
    2024-05-01T10:00:00 is applied and the stored timestamp goes back. *)
Lemma stale_push_regresses_updated_at :
  let s := Sample.store_of [Sample.t1_fresh] in
  get (upsert s Sample.t1_stale) 1 = Some Sample.t1_stale /\
  updated_at_regressed (get s 1) (get (upsert s Sample.t1_stale) 1) = true.
Proof. split; reflexivity. Qed.

(** C6, as the store has it. [updateTaskFromWebSocket] keeps ids distinct
    and a snapshot is stored as it comes: starting from a collection with
    distinct ids, every sequence of [upsert] and [replaceAll] calls whose
    snapshots have distinct ids leaves a collection with distinct ids. *)
Theorem unique_ids_preserved s (ops : list Op) :
  unique_ids (all s) ->
  Forall unique_ids (snapshots ops) ->
  unique_ids (all (run s ops)).
Proof.
  unfold all. revert s. induction ops as [|o ops IH]; intros s Hs Hops; [done|].
  change (run s (o :: ops)) with (run (apply s o) ops).
  destruct o as [u|l]; simpl in Hops.
  - apply IH; [|done]. by apply upsert_unique_ids.
  - apply Forall_cons in Hops as [Hl Hops]. by apply IH.
Qed.

Lemma unique_ids_preserved_witness :
  unique_ids (all (run init
    [ReplaceAll [Sample.t1_pending; Sample.t2_downloading];
     Upsert Sample.t1_downloading; Upsert Sample.t3_completed])).
Proof.
  apply unique_ids_preserved.
  - apply NoDup_nil_2.
  - apply Forall_cons. split; [|apply Forall_nil_2].
    apply (bool_decide_unpack _). vm_compute. reflexivity.
Defined.

(** C6, counterexample. A snapshot that lists id 1 twice is stored as it
    is: the collection then has two entries with id 1. *)
Lemma replaceAll_keeps_duplicates :
  let s := run init [ReplaceAll [Sample.t1_pending; Sample.t1_downloading]] in
  all s = [Sample.t1_pending; Sample.t1_downloading] /\
  ~ unique_ids (all s).
Proof.
  split; [reflexivity|].
  unfold unique_ids. simpl. intros H. apply NoDup_cons in H as [H _].
  apply H. apply list_elem_of_singleton. reflexivity.
Qed.
End RepositoryClaims.

(** ** The store's mutating actions *)

Section ActionClaims.
Import TaskStore Repository.
Implicit Types (s : State) (u t : DownloadTask) (l : list DownloadTask).

Lemma filter_out_id_absent taskId l :
  forall t, t ∈ List.filter (fun t => negb (id_is taskId t)) l ->
            DownloadTask.id t <> Some taskId.
Proof.
  intros t Ht. apply list_elem_of_In, filter_In in Ht as [_ Ht].
  apply negb_true_iff in Ht. by apply id_is_false.
Qed.

(** C7, as the store has it. [terminateTask] and [redownloadTask] change
    the collection only on a successful answer and only when an entry with
    id [taskId] is stored: the first such entry is overwritten in place by
    the server's record. When no entry has that id the collection stays as
    it is, the record is not inserted. Either way the record is returned.
    On a failure, an [error] body or a rejected call, the collection is
    unchanged, [null] is returned and [error] is set. *)
Theorem mutating_result_overwrites_known_only s taskId :
  (forall response (i : nat),
      findIndex (id_is taskId) (tasks s) = Z.of_nat i ->
      terminateTask_resume s taskId (Body (inr response))
        = (mk (<[i := task response]> (tasks s)) false (error s), Some (task response)) /\
      redownloadTask_resume s taskId (Body (inr response))
        = (mk (<[i := task response]> (tasks s)) false (error s), Some (task response))) /\
  (forall response,
      (forall t, t ∈ tasks s -> DownloadTask.id t <> Some taskId) ->
      terminateTask_resume s taskId (Body (inr response))
        = (mk (tasks s) false (error s), Some (task response)) /\
      redownloadTask_resume s taskId (Body (inr response))
        = (mk (tasks s) false (error s), Some (task response))) /\
  (forall e,
      terminateTask_resume s taskId (Body (inl e))
        = (mk (tasks s) false (Some (error_of e)), None) /\
      redownloadTask_resume s taskId (Body (inl e))
        = (mk (tasks s) false (Some (error_of e)), None)) /\
  terminateTask_resume s taskId Threw = (mk (tasks s) false (Some "终止任务失败"), None) /\
  redownloadTask_resume s taskId Threw = (mk (tasks s) false (Some "重新下载任务失败"), None).
Proof.
  split; [|split; [|split; [|split]]]; try done.
  - intros response i E. unfold terminateTask_resume, redownloadTask_resume.
    rewrite E. destruct (Z.eqb_spec (Z.of_nat i) (-1)); [lia|]. simpl.
    unfold array_set. by rewrite Nat2Z.id.
  - intros response Habs.
    assert (E : findIndex (id_is taskId) (tasks s) = -1).
    { apply findIndex_absent. intros t Ht. apply id_is_false. by apply Habs. }
    unfold terminateTask_resume, redownloadTask_resume. rewrite E. simpl.
    by destruct s.
Qed.

Lemma mutating_result_overwrites_known_only_witness :
  terminateTask_resume
    (Sample.store_of [Sample.t1_pending; Sample.t2_downloading]) 2
    (Body (inr {| task_msg := "ok"; task := Sample.task (Some 2) TERMINATED "2024-05-01T09:35:00" |}))
  = (Sample.store_of
       [Sample.t1_pending; Sample.task (Some 2) TERMINATED "2024-05-01T09:35:00"],
     Some (Sample.task (Some 2) TERMINATED "2024-05-01T09:35:00")) /\
  redownloadTask_resume (Sample.store_of [Sample.t1_pending]) 5
    (Body (inr {| task_msg := "ok"; task := Sample.t5_terminated |}))
  = (Sample.store_of [Sample.t1_pending], Some Sample.t5_terminated).
Proof.
  split.
  - refine (proj1 (proj1 (mutating_result_overwrites_known_only
              (Sample.store_of [Sample.t1_pending; Sample.t2_downloading]) 2)
              {| task_msg := "ok";
                 task := Sample.task (Some 2) TERMINATED "2024-05-01T09:35:00" |}
              1%nat _)).
    reflexivity.
  - refine (proj2 (proj1 (proj2 (mutating_result_overwrites_known_only
              (Sample.store_of [Sample.t1_pending]) 5))
              {| task_msg := "ok"; task := Sample.t5_terminated |} _)).
    intros t Ht. apply list_elem_of_singleton in Ht as ->. discriminate.
Defined.

(** C7, counterexample. [terminateTask(5)] succeeds while no task 5 is
    stored: the server's record is returned but not inserted, [get(5)]
    finds nothing. *)
Lemma terminate_unknown_id_not_inserted :
  let s := Sample.store_of [Sample.t1_pending] in
  let r := terminateTask_resume s 5
             (Body (inr {| task_msg := "ok"; task := Sample.t5_terminated |})) in
  r.2 = Some Sample.t5_terminated /\
  all r.1 = [Sample.t1_pending] /\
  get r.1 5 = None /\
  all r.1 <> all (upsert s Sample.t5_terminated).
Proof. repeat split; try reflexivity. discriminate. Qed.

(** C8. A successful [deleteTask(taskId)] answers [true] and leaves the
    collection filtered by id: no entry with that id remains, the others
    stay in order. A [task_update] for the same id that arrives afterwards
    is appended again, and is what [get] then finds. *)
Theorem delete_filters_and_push_reinserts s taskId (m : MessageResponse) :
  let r := deleteTask_resume s taskId (Body (inr m)) in
  r.2 = true /\
  all r.1 = List.filter (fun t => negb (id_is taskId t)) (all s) /\
  (forall t, t ∈ all r.1 -> DownloadTask.id t <> Some taskId) /\
  get r.1 taskId = None /\
  forall u, DownloadTask.id u = Some taskId ->
            all (upsert r.1 u) = all r.1 ++ [u] /\
            get (upsert r.1 u) taskId = Some u.
Proof.
  simpl. unfold all, get. simpl.
  pose proof (filter_out_id_absent taskId (tasks s)) as Habs.
  assert (E : findIndex (id_is taskId)
                (List.filter (fun t => negb (id_is taskId t)) (tasks s)) = -1).
  { apply findIndex_absent. intros t Ht. apply id_is_false. by apply Habs. }
  split; [done|]. split; [done|]. split; [done|].
  split; [by apply find_none|].
  intros u Hu. split.
  - apply upsert_unknown. simpl.
    apply findIndex_absent. intros t Ht.
    rewrite <- (id_is_same_id _ _ Hu). apply id_is_false. by apply Habs.
  - pose proof (upsert_stores
      (done_loading
         (set_tasks s (List.filter (fun t => negb (id_is taskId t)) (tasks s)))) u)
      as Hst.
    rewrite <- Hst. apply find_pointwise. intros t. by apply id_is_same_id.
Qed.

Lemma delete_filters_and_push_reinserts_witness :
  let r := deleteTask_resume
             (Sample.store_of [Sample.t1_pending; Sample.t3_completed; Sample.t2_downloading])
             3 (Body (inr {| msg := "deleted" |})) in
  all r.1 = [Sample.t1_pending; Sample.t2_downloading] /\
  all (upsert r.1 Sample.t3_completed)
  = [Sample.t1_pending; Sample.t2_downloading; Sample.t3_completed] /\
  get (upsert r.1 Sample.t3_completed) 3 = Some Sample.t3_completed.
Proof.
  pose proof (delete_filters_and_push_reinserts
    (Sample.store_of [Sample.t1_pending; Sample.t3_completed; Sample.t2_downloading])
    3 {| msg := "deleted" |}) as [_ [Hall [_ [_ Hpush]]]].
  split; [exact Hall|].
  exact (Hpush Sample.t3_completed eq_refl).
Defined.

(** C9, as the store has it. [updateTaskFromWebSocket] has no check on the
    payload: a payload without an id is stored like any other. Every entry
    that has an id keeps its place and its content; the payload is
    appended at the tail when no stored entry lacks an id, and otherwise
    replaces the first entry that lacks one. *)
Theorem upsert_without_id_is_stored s u :
  DownloadTask.id u = None ->
  (forall (i : nat) t, all s !! i = Some t -> DownloadTask.id t <> None ->
                       all (upsert s u) !! i = Some t) /\
  ((forall t, t ∈ all s -> DownloadTask.id t <> None) ->
   all (upsert s u) = all s ++ [u]) /\
  (forall (i : nat), findIndex (same_id u) (all s) = Z.of_nat i ->
                     all (upsert s u) = <[i := u]> (all s)) /\
  u ∈ all (upsert s u).
Proof.
  unfold all. intros Hu. split; [|split; [|split]].
  - intros i t Hi Ht.
    destruct (findIndex_range (same_id u) (tasks s)) as [E|R].
    + rewrite (upsert_unknown _ _ E). by apply lookup_app_l_Some.
    + destruct (findIndex_some (same_id u) (tasks s)) as [k Ek]; [lia|].
      rewrite (upsert_known _ _ _ Ek).
      destruct (findIndex_first _ _ _ Ek) as [[x [Hx Hpx]] _].
      apply same_id_true in Hpx.
      rewrite list_lookup_insert_ne; [done|].
      intros ->. congruence.
  - intros Hall. apply upsert_unknown, findIndex_absent.
    intros t Ht. apply same_id_false. rewrite Hu. by apply Hall.
  - intros i Ei. by apply upsert_known.
  - pose proof (upsert_stores s u) as H. unfold find in H.
    apply find_some in H as [H _]. by apply list_elem_of_In.
Qed.

Lemma upsert_without_id_is_stored_witness :
  all (upsert (Sample.store_of [Sample.t1_pending]) Sample.no_id)
  = [Sample.t1_pending; Sample.no_id].
Proof.
  refine (proj1 (proj2 (upsert_without_id_is_stored
            (Sample.store_of [Sample.t1_pending]) Sample.no_id eq_refl)) _).
  intros t Ht. apply list_elem_of_singleton in Ht as ->. discriminate.
Defined.

(** C9, counterexample. A payload without an id is not rejected: the
    collection has one more entry afterwards. *)
Lemma upsert_without_id_changes_collection :
  let s := Sample.store_of [Sample.t1_pending] in
  DownloadTask.id Sample.no_id = None /\
  all (upsert s Sample.no_id) = [Sample.t1_pending; Sample.no_id] /\
  all (upsert s Sample.no_id) <> all s.
Proof. repeat split. discriminate. Qed.
End ActionClaims.

(** ** The realtime channel *)

Section ChannelClaims.
Import WebSocketAPI.
Implicit Types (c : State) (k : Conn) (e : ServerEvent) (l : list Item).

Lemma handshake_steps_snoc t l i :
  handshake_steps t (l ++ [i]) = handshake_step t (handshake_steps t l) i.
Proof. unfold handshake_steps. by rewrite foldl_app. Qed.

Lemma answered_snoc l i :
  answered (l ++ [i]) = answered_step (answered l) i.
Proof. unfold answered. by rewrite foldl_app. Qed.

Lemma handshake_step_le t n i : (n <= 3)%nat -> (handshake_step t n i <= 3)%nat.
Proof.
  intros H. destruct n as [|[|[|n]]], i as [|[]|[]]; simpl;
    repeat case_match; lia.
Qed.

Lemma handshake_steps_le t l : (handshake_steps t l <= 3)%nat.
Proof.
  induction l as [|i l IH] using rev_ind; [unfold handshake_steps; simpl; lia|].
  rewrite handshake_steps_snoc. by apply handshake_step_le.
Qed.

(** The scan only moves on the three handshake items. *)
Lemma handshake_step_other t n e :
  (forall m, e <> request_auth m) -> (forall b m, e <> auth_response b m) ->
  handshake_step t n (Received e) = n.
Proof.
  intros H1 H2. destruct n as [|[|[|n]]], e; simpl; try done.
  - by destruct (H1 message).
  - destruct success; [|done]. by destruct (H2 true message).
Qed.

Lemma resolve_true p b : resolve p b = Resolved true -> p = Resolved true \/ p = Pending /\ b = true.
Proof. destruct p; simpl; [intros [= ->]; by right|by left|done]. Qed.

Lemma reject_resolved p r : reject p r = Resolved true -> p = Resolved true.
Proof. by destruct p. Qed.

(** [connect] resolves only in the [auth_response] listener. *)
Lemma deliver_resolved k e :
  promise (deliver k e) = Resolved true ->
  promise k = Resolved true \/ exists m, e = auth_response true m.
Proof.
  destruct e; simpl; unfold on_request_auth, on_auth_response, on_task_update,
    on_connect_error, on_disconnect, socket_opt_emit; simpl;
    repeat case_match; simpl; eauto using reject_resolved.
Qed.

Lemma deliver_log_prefix k e : exists l, log (deliver k e) = log k ++ Received e :: l.
Proof.
  destruct e; simpl; unfold on_request_auth, on_auth_response, on_task_update,
    on_connect_error, on_disconnect, socket_opt_emit; simpl;
    repeat case_match; simpl; try (by exists []);
    by (eexists [_]; rewrite <- ?app_assoc).
Qed.

Lemma deliver_all_resolved k es :
  promise (deliver_all k es) = Resolved true ->
  promise k = Resolved true \/
  exists m, Received (auth_response true m) ∈ log (deliver_all k es).
Proof.
  induction es as [|e es IH] using rev_ind; [by left|].
  unfold deliver_all in *. rewrite foldl_app. simpl. intros H.
  destruct (deliver_log_prefix (foldl deliver k es) e) as [l Hl].
  apply deliver_resolved in H as [H|[m ->]].
  - destruct (IH H) as [?|[m Hm]]; [by left|]. right. exists m.
    rewrite Hl. apply elem_of_app. by left.
  - right. exists m. rewrite Hl. apply elem_of_app. right. by left.
Qed.

(** Against a server that only answers, what the log has seen of the
    handshake is ahead of what the module has done: once an [authenticate]
    went out the scan is past its second step, and once the promise is
    resolved it is through. *)
Lemma deliver_handshake k e :
  ((answered (log k)).2 = true ->
   ((answered (log k)).1 = true ->
    exists t, truthy (token k) = Some t /\ (2 <= handshake_steps t (log k))%nat) /\
   (promise k = Resolved true ->
    exists t, truthy (token k) = Some t /\ handshake_steps t (log k) = 3%nat)) ->
  token (deliver k e) = token k /\
  ((answered (log (deliver k e))).2 = true ->
   ((answered (log (deliver k e))).1 = true ->
    exists t, truthy (token k) = Some t /\
              (2 <= handshake_steps t (log (deliver k e)))%nat) /\
   (promise (deliver k e) = Resolved true ->
    exists t, truthy (token k) = Some t /\
              handshake_steps t (log (deliver k e)) = 3%nat)).
Proof.
  intros IH.
  destruct e as [|m|b m|d|err|r].
  - (* connect *)
    simpl. rewrite answered_snoc. simpl. split; [done|]. intros Hok.
    destruct (IH Hok) as [Hs Hp]. split; intros H.
    + destruct (Hs H) as [t [? ?]]. exists t. by rewrite handshake_steps_snoc, handshake_step_other.
    + destruct (Hp H) as [t [? ?]]. exists t. by rewrite handshake_steps_snoc, handshake_step_other.
  - (* request_auth *)
    simpl. unfold on_request_auth, socket_opt_emit. simpl.
    destruct (truthy (token k)) as [t|] eqn:Et; simpl.
    + destruct (socket (api k)); simpl.
      * rewrite !answered_snoc. simpl. split; [done|]. intros Hok.
        destruct (IH Hok) as [_ Hp]. split; intros H.
        -- exists t. split; [done|]. rewrite !handshake_steps_snoc.
           pose proof (handshake_steps_le t (log k)).
           destruct (handshake_steps t (log k)) as [|[|[|n]]]; simpl;
             rewrite ?bool_decide_eq_true_2 by done; lia.
        -- destruct (Hp H) as [t' [[= <-] E]]. exists t. split; [done|].
           rewrite !handshake_steps_snoc, E. done.
      * rewrite answered_snoc. simpl. split; [done|]. intros Hok.
        destruct (IH Hok) as [Hs Hp]. split; intros H.
        -- destruct (Hs H) as [t' [[= <-] E]]. exists t. split; [done|].
           rewrite handshake_steps_snoc.
           destruct (handshake_steps t (log k)) as [|[|[|n]]]; simpl; lia.
        -- destruct (Hp H) as [t' [[= <-] E]]. exists t. split; [done|].
           rewrite handshake_steps_snoc, E. done.
    + rewrite answered_snoc. simpl. split; [done|]. intros Hok.
      destruct (IH Hok) as [Hs Hp]. split; intros H.
      * by destruct (Hs H) as [t' [? _]].
      * apply reject_resolved in H. by destruct (Hp H) as [t' [? _]].
  - (* auth_response *)
    unfold deliver, on_auth_response.
    destruct b; simpl; rewrite answered_snoc; simpl; (split; [done|]);
      intros [Hok Hsent]%andb_true_iff; destruct (IH Hok) as [Hs Hp];
      destruct (Hs Hsent) as [t [Et Hn]];
      pose proof (handshake_steps_le t (log k)) as Hle.
    + split; intros _; exists t; (split; [done|]); rewrite handshake_steps_snoc;
        destruct (handshake_steps t (log k)) as [|[|[|[|n]]]]; simpl; lia.
    + split; intros H.
      * exists t. split; [done|]. rewrite handshake_steps_snoc.
        destruct (handshake_steps t (log k)) as [|[|[|n]]]; simpl; lia.
      * apply reject_resolved in H. destruct (Hp H) as [t' [Et' E]].
        exists t'. split; [done|]. rewrite handshake_steps_snoc, E. done.
  - (* task_update *)
    simpl. unfold on_task_update. simpl.
    assert (log (match taskUpdateCallback (api k) with
                 | Some callback =>
                     with_store (logged k (Received (task_update d)))
                       (callback (store k) d)
                 | None => logged k (Received (task_update d))
                 end) = log k ++ [Received (task_update d)]) as Hlog
      by by destruct (taskUpdateCallback (api k)).
    rewrite Hlog, answered_snoc. simpl. split; [by destruct (taskUpdateCallback (api k))|].
    intros Hok. destruct (IH Hok) as [Hs Hp]. split; intros H.
    + destruct (Hs H) as [t [? ?]]. exists t. by rewrite handshake_steps_snoc, handshake_step_other.
    + assert (promise k = Resolved true) as H' by by destruct (taskUpdateCallback (api k)).
      destruct (Hp H') as [t [? ?]]. exists t. by rewrite handshake_steps_snoc, handshake_step_other.
  - (* connect_error *)
    simpl. rewrite answered_snoc. simpl. split; [done|]. intros Hok.
    destruct (IH Hok) as [Hs Hp]. split; intros H.
    + destruct (Hs H) as [t [? ?]]. exists t. by rewrite handshake_steps_snoc, handshake_step_other.
    + apply reject_resolved in H.
      destruct (Hp H) as [t [? ?]]. exists t. by rewrite handshake_steps_snoc, handshake_step_other.
  - (* disconnect *)
    simpl. unfold on_disconnect. simpl.
    assert (log (match socket (api k) with
                 | Some _ =>
                     with_api (logged k (Received (ev_disconnect r)))
                       (set_socket (api k) None)
                 | None => logged k (Received (ev_disconnect r))
                 end) = log k ++ [Received (ev_disconnect r)]) as Hlog
      by by destruct (socket (api k)).
    rewrite Hlog, answered_snoc. simpl. split; [by destruct (socket (api k))|].
    intros Hok. destruct (IH Hok) as [Hs Hp]. split; intros H.
    + destruct (Hs H) as [t [? ?]]. exists t. by rewrite handshake_steps_snoc, handshake_step_other.
    + assert (promise k = Resolved true) as H' by by destruct (socket (api k)).
      destruct (Hp H') as [t [? ?]]. exists t. by rewrite handshake_steps_snoc, handshake_step_other.
Qed.
End ChannelClaims.

Section HandshakeClaims.
Import WebSocketAPI.
Implicit Types (c : State) (k : Conn) (e : ServerEvent) (l : list Item).

Lemma deliver_all_snoc k es e :
  deliver_all k (es ++ [e]) = deliver (deliver_all k es) e.
Proof. unfold deliver_all. by rewrite foldl_app. Qed.

Lemma deliver_all_handshake k es :
  ((answered (log k)).2 = true ->
   ((answered (log k)).1 = true ->
    exists t, truthy (token k) = Some t /\ (2 <= handshake_steps t (log k))%nat) /\
   (promise k = Resolved true ->
    exists t, truthy (token k) = Some t /\ handshake_steps t (log k) = 3%nat)) ->
  token (deliver_all k es) = token k /\
  ((answered (log (deliver_all k es))).2 = true ->
   promise (deliver_all k es) = Resolved true ->
   exists t, truthy (token k) = Some t /\
             handshake_steps t (log (deliver_all k es)) = 3%nat).
Proof.
  intros Hk.
  enough (token (deliver_all k es) = token k /\
          ((answered (log (deliver_all k es))).2 = true ->
           ((answered (log (deliver_all k es))).1 = true ->
            exists t, truthy (token k) = Some t /\
                      (2 <= handshake_steps t (log (deliver_all k es)))%nat) /\
           (promise (deliver_all k es) = Resolved true ->
            exists t, truthy (token k) = Some t /\
                      handshake_steps t (log (deliver_all k es)) = 3%nat)))
    as [Ht H].
  { split; [done|]. intros Hok. by destruct (H Hok). }
  induction es as [|e es [Ht IH]] using rev_ind; [done|].
  rewrite deliver_all_snoc.
  rewrite <- Ht in IH. destruct (deliver_handshake _ e IH) as [Ht' H].
  rewrite Ht in *. done.
Qed.

(** C2, as the module has it. [connect] resolves [true] only after an
    [auth_response] with [success: true] has arrived, or at once when the
    socket was already connected. The module does not check itself what
    came before: it emits [authenticate] with the token in answer to
    [request_auth], so against a server that sends [auth_response] only
    after an [authenticate], a resolved [connect] has seen [request_auth],
    then [authenticate], then [auth_response] with [success: true]. An
    [auth_response] with [success: false] that arrives while the promise
    is pending rejects it with [Authentication failed: ] followed by the
    server's message and calls [disconnect] on the socket, after which
    [isConnected()] is [false]. *)
Theorem connect_resolves_after_auth_response c tok st es :
  let k := deliver_all (connect c tok st) es in
  (promise k = Resolved true ->
   isConnected c = true \/ exists m, Received (auth_response true m) ∈ log k) /\
  (isConnected c = false ->
   answers_only (log k) = true ->
   promise k = Resolved true ->
   exists t, truthy tok = Some t /\ handshake_done t (log k) = true) /\
  (forall k0 m,
      promise k0 = Pending ->
      let k1 := deliver k0 (auth_response false m) in
      promise k1 = Rejected ("Authentication failed: " +:+ m) /\
      socket (api k1) = socket_disconnect <$> socket (api k0) /\
      isConnected (api k1) = false).
Proof.
  simpl. split; [|split].
  - intros H. destruct (isConnected c) eqn:Ec; [by left|right].
    apply deliver_all_resolved in H as [H|H]; [|done].
    unfold connect in H. by rewrite Ec in H.
  - intros Ec Hok Hres.
    destruct (deliver_all_handshake (connect c tok st) es) as [_ H].
    { unfold connect. rewrite Ec. simpl. done. }
    destruct (H Hok Hres) as [t [Et E]].
    exists t. split.
    + revert Et. unfold connect. by rewrite Ec.
    + unfold handshake_done. by apply bool_decide_eq_true.
  - intros k0 m Hp. simpl. unfold on_auth_response. simpl. rewrite Hp.
    split; [done|]. split; [done|].
    unfold isConnected. simpl. by destruct (socket (api k0)).
Qed.

Lemma connect_resolves_after_auth_response_witness :
  let k := deliver_all (connect init (Some "jwt") TaskStore.init)
             [ev_connect; request_auth "Please authenticate"; auth_response true "ok"] in
  promise k = Resolved true /\
  (exists t, truthy (Some "jwt") = Some t /\ handshake_done t (log k) = true) /\
  promise (deliver (connect init (Some "jwt") TaskStore.init)
             (auth_response false "bad token"))
  = Rejected "Authentication failed: bad token".
Proof.
  split; [reflexivity|]. split.
  - exact (proj1 (proj2 (connect_resolves_after_auth_response init (Some "jwt")
             TaskStore.init
             [ev_connect; request_auth "Please authenticate"; auth_response true "ok"]))
             eq_refl eq_refl eq_refl).
  - exact (proj1 (proj2 (proj2 (connect_resolves_after_auth_response init (Some "jwt")
             TaskStore.init []))
             (connect init (Some "jwt") TaskStore.init) "bad token" eq_refl)).
Defined.

(** C2, counterexample. The transport comes up and the server sends
    [auth_response] with [success: true] straight away: [connect] resolves
    [true] although no [request_auth] was received and no [authenticate]
    was emitted. And the rejection for [bad token] does not carry that
    message but [Authentication failed: bad token]. *)
Lemma connect_resolves_without_handshake :
  let k := deliver_all (connect init (Some "jwt") TaskStore.init)
             [ev_connect; auth_response true "ok"] in
  promise k = Resolved true /\
  log k = [Opened; Received ev_connect; Received (auth_response true "ok")] /\
  handshake_done "jwt" (log k) = false /\
  promise (deliver (connect init (Some "jwt") TaskStore.init)
             (auth_response false "bad token"))
  <> Rejected "bad token".
Proof. repeat split. discriminate. Qed.
End HandshakeClaims.

(** ** Logging out *)

Section LogoutClaims.
Import WebSocketAPI.

Lemma disconnect_cleared c : disconnect c = mk None None.
Proof.
  unfold disconnect, socket_opt_disconnect, isConnected.
  destruct c as [[[[]]|] cb]; reflexivity.
Qed.

(** C10, as the view has it. On logout [disconnect()] is called only when
    [isConnected()] answers [true]. After the logout the session is
    unauthenticated, the token is gone and [isConnected()] is [false]. A
    channel that was connected has been disconnected, its socket and its
    subscriber cleared; a channel that was not connected is left as it
    was, socket and subscriber included. *)
Theorem logout_disconnects_when_connected (v : HomeView.State) :
  let v' := HomeView.logout v in
  AuthStore.isAuthenticated (HomeView.authStore v') = false /\
  AuthStore.accessToken (HomeView.authStore v') = None /\
  isConnected (HomeView.channel v') = false /\
  (isConnected (HomeView.channel v) = true ->
   HomeView.channel v' = disconnect (HomeView.channel v) /\
   HomeView.channel v' = mk None None) /\
  (isConnected (HomeView.channel v) = false ->
   HomeView.channel v' = HomeView.channel v).
Proof.
  destruct v as [a c]. unfold HomeView.logout, HomeView.handleCommand_logout,
    HomeView.watch_unauthenticated, HomeView.disconnect_if_connected. simpl.
  destruct (isConnected c) eqn:Ec;
    destruct (AuthStore.isAuthenticated a); simpl;
    rewrite ?disconnect_cleared; simpl; rewrite ?Ec; simpl;
    repeat split; try done.
Qed.

Lemma logout_disconnects_when_connected_witness :
  HomeView.channel
    (HomeView.logout
       (HomeView.mk (AuthStore.mk (Some {| profile_id := 1; username := "u" |})
                       true false None (Some "jwt"))
          (mk (Some {| connected := true |})
             (Some TaskStore.updateTaskFromWebSocket))))
  = mk None None.
Proof.
  exact (proj2 (proj1 (proj2 (proj2 (proj2 (logout_disconnects_when_connected
           (HomeView.mk (AuthStore.mk (Some {| profile_id := 1; username := "u" |})
                           true false None (Some "jwt"))
              (mk (Some {| connected := true |})
                 (Some TaskStore.updateTaskFromWebSocket)))))))
           eq_refl)).
Defined.

(** C10, counterexample. The user logs out while a [connect] is under way:
    the socket exists but is not connected yet. [disconnect()] is not
    called and the socket stays in place. *)
Lemma logout_keeps_connecting_socket :
  let c := api (connect init (Some "jwt") TaskStore.init) in
  let v := HomeView.mk (AuthStore.mk (Some {| profile_id := 1; username := "u" |})
                          true false None (Some "jwt")) c in
  HomeView.channel (HomeView.logout v) = c /\
  socket (HomeView.channel (HomeView.logout v)) = Some {| connected := false |} /\
  HomeView.channel (HomeView.logout v) <> disconnect c.
Proof. repeat split. discriminate. Qed.
End LogoutClaims.

(** ** The task actions of the view *)

Section ViewClaims.
Import TasksView.
Implicit Types (v : State) (a : Action) (row : DownloadTask).

Lemma store_call_request st a taskId :
  (store_call st a taskId).2 = request_of a taskId.
Proof. by destruct a. Qed.

(** C3, as the view has it. [activeTaskId] and [actionType] are written
    when a handler starts and read only by the [loading] flag of the
    buttons; no handler looks at them before it goes on. Whatever calls
    are under way, a new call of a handler for any id is taken on: the
    refs are overwritten with it, the button of that row and action shows
    as loading, [redownloadTask] issues its REST call at once, and
    [terminateTask] and [deleteTask] issue theirs as soon as their dialog
    is confirmed (none when it is cancelled). *)
Theorem every_call_issues_its_request v a taskId :
  let v1 := invoke v a taskId in
  let k := length (calls v) in
  refs v1 = mkRefs (Some taskId) (Some a) /\
  (forall row, DownloadTask.id row = Some taskId -> loading (refs v1) a row = true) /\
  (a = redownload -> requests v1 = requests v ++ [POST_redownload taskId]) /\
  (a <> redownload ->
   requests v1 = requests v /\
   requests (confirm v1 k true) = requests v ++ [request_of a taskId] /\
   requests (confirm v1 k false) = requests v).
Proof.
  simpl. split; [by destruct a|]. split; [|split].
  - intros row Hrow. unfold loading.
    assert (refs (invoke v a taskId) = mkRefs (Some taskId) (Some a)) as ->
      by by destruct a.
    simpl. rewrite Hrow. apply andb_true_iff.
    split; by apply bool_decide_eq_true.
  - by intros ->.
  - intros Ha. destruct a; [|..|done]; simpl; unfold confirm; simpl;
      rewrite lookup_app_r, Nat.sub_diag by done; simpl; done.
Qed.

Lemma every_call_issues_its_request_witness :
  let v := steps (init (Sample.store_of [Sample.task (Some 5) DOWNLOADING "2024-05-01T09:20:00"]))
             [Invoke terminate 5; Confirm 0 true] in
  in_flight v = [mkCall terminate 5 AwaitRest] /\
  requests (confirm (invoke v delete 5) 1 true) = [POST_terminate 5; DELETE_task 5] /\
  requests (invoke v redownload 5) = [POST_terminate 5; POST_redownload 5].
Proof.
  split; [reflexivity|]. split.
  - refine (proj1 (proj2 (proj2 (proj2 (proj2 (every_call_issues_its_request
              (steps (init (Sample.store_of
                 [Sample.task (Some 5) DOWNLOADING "2024-05-01T09:20:00"]))
                 [Invoke terminate 5; Confirm 0 true]) delete 5))) _))).
    discriminate.
  - exact (proj1 (proj2 (proj2 (every_call_issues_its_request
              (steps (init (Sample.store_of
                 [Sample.task (Some 5) DOWNLOADING "2024-05-01T09:20:00"]))
                 [Invoke terminate 5; Confirm 0 true]) redownload 5))) eq_refl).
Defined.

(** C3, counterexample. [terminateTask(5)] is called and confirmed; while
    its REST call is in flight [terminateTask(5)] is called and confirmed
    again: two terminate requests for task 5 have been issued and both
    calls are in flight. Likewise a [deleteTask(5)] during the first call,
    whose button does not even show as loading, issues its request. *)
Lemma two_terminate_calls_two_requests :
  let row := Sample.task (Some 5) DOWNLOADING "2024-05-01T09:20:00" in
  let v0 := init (Sample.store_of [row]) in
  let v1 := steps v0 [Invoke terminate 5; Confirm 0 true] in
  let v2 := steps v1 [Invoke terminate 5; Confirm 1 true] in
  let v3 := steps v1 [Invoke delete 5; Confirm 1 true] in
  in_flight v1 = [mkCall terminate 5 AwaitRest] /\
  requests v1 = [POST_terminate 5] /\
  requests v2 = [POST_terminate 5; POST_terminate 5] /\
  in_flight v2 = [mkCall terminate 5 AwaitRest; mkCall terminate 5 AwaitRest] /\
  loading (refs v1) delete row = false /\
  requests v3 = [POST_terminate 5; DELETE_task 5].
Proof. repeat split. Qed.

(** C4, as the view has it. The status gate is the template: the
    terminate button is rendered only for a row in status PENDING,
    DOWNLOADING or PROCESSING, the redownload button only for a row in
    status COMPLETED, FAILED or TERMINATED and the delete button in every
    status, each only while the row is not marked deleted. The handlers
    and the store actions do not look at the stored status: once called
    they issue the REST call of their action for the given id, whatever
    the store holds, and a call shows no message of its own, so nothing
    reports an action as not performed. *)
Theorem status_gate_is_the_template v row taskId :
  (offered terminate row = true <->
   not_deleted row = true /\
   DownloadTask.status row ∈ [PENDING; DOWNLOADING; PROCESSING]) /\
  (offered redownload row = true <->
   not_deleted row = true /\
   DownloadTask.status row ∈ [COMPLETED; FAILED; TERMINATED]) /\
  (offered delete row = true <-> not_deleted row = true) /\
  (forall a, (store_call (taskStore v) a taskId).2 = request_of a taskId) /\
  requests (invoke v redownload taskId) = requests v ++ [POST_redownload taskId] /\
  (forall a, a <> redownload ->
             requests (confirm (invoke v a taskId) (length (calls v)) true)
             = requests v ++ [request_of a taskId]) /\
  (forall a, toasts (invoke v a taskId) = toasts v /\
             toasts (confirm (invoke v a taskId) (length (calls v)) true) = toasts v).
Proof.
  unfold offered.
  split; [|split; [|split; [|split; [|split; [|split]]]]].
  - by rewrite andb_true_iff, bool_decide_eq_true.
  - by rewrite andb_true_iff, bool_decide_eq_true.
  - by rewrite andb_true_r.
  - intros a. apply store_call_request.
  - done.
  - intros a Ha. destruct a; [|..|done]; simpl; unfold confirm; simpl;
      rewrite lookup_app_r, Nat.sub_diag by done; simpl; done.
  - intros a. destruct a; simpl; (split; [done|]); unfold confirm; simpl;
      rewrite lookup_app_r, Nat.sub_diag by done; simpl; done.
Qed.

Lemma status_gate_is_the_template_witness :
  let row := Sample.task (Some 1) DOWNLOADING "2024-05-01T09:20:00" in
  let v := init (Sample.store_of [row]) in
  offered terminate row = true /\
  requests (confirm (invoke v terminate 1) 0 true) = [POST_terminate 1].
Proof.
  pose proof (status_gate_is_the_template
    (init (Sample.store_of [Sample.task (Some 1) DOWNLOADING "2024-05-01T09:20:00"]))
    (Sample.task (Some 1) DOWNLOADING "2024-05-01T09:20:00") 1)
    as [Hterm [_ [_ [_ [_ [Hreq _]]]]]].
  split.
  - apply Hterm. split; [reflexivity|].
    apply elem_of_cons. right. apply elem_of_cons. by left.
  - refine (Hreq terminate _). discriminate.
Defined.

(** C4, counterexample. Task 1 is stored with status DOWNLOADING and
    [redownloadTask(1)] is called: the handler calls the store action,
    which issues the redownload request. *)
Lemma redownload_from_downloading_issues_request :
  let row := Sample.task (Some 1) DOWNLOADING "2024-05-01T09:20:00" in
  let v := init (Sample.store_of [row]) in
  DownloadTask.status <$> Repository.get (taskStore v) 1 = Some DOWNLOADING /\
  (TaskStore.redownloadTask_call (taskStore v) 1).2 = POST_redownload 1 /\
  requests (steps v [Invoke redownload 1]) = [POST_redownload 1].
Proof. repeat split. Qed.
End ViewClaims.


(** ** Further properties of the task store *)

Section ArrayMoreFacts.
Context {A : Type}.
Implicit Types (p q : A -> bool) (l : list A).

Lemma findIndex_pointwise p q l :
  (forall x, p x = q x) -> findIndex p l = findIndex q l.
Proof.
  intros H. induction l as [|x l IH]; [done|].
  by rewrite !findIndex_cons, H, IH.
Qed.

Lemma find_app_miss p l x : p x = false -> find p (l ++ [x]) = find p l.
Proof.
  intros H. unfold find. induction l as [|y l IH]; simpl; [by rewrite H|].
  by destruct (p y).
Qed.

Lemma find_insert_miss p l (i : nat) x y :
  l !! i = Some x -> p x = false -> p y = false ->
  find p (<[i := y]> l) = find p l.
Proof.
  unfold find. revert i. induction l as [|z l IH]; intros i Hi Hx Hy; [done|].
  destruct i as [|i]; simpl in *.
  - injection Hi as ->. by rewrite Hx, Hy.
  - destruct (p z); [done|]. by apply IH.
Qed.

Lemma filter_insert_miss p l (i : nat) x y :
  l !! i = Some x -> p x = false -> p y = false ->
  List.filter p (<[i := y]> l) = List.filter p l.
Proof.
  revert i. induction l as [|z l IH]; intros i Hi Hx Hy; [done|].
  destruct i as [|i]; simpl in *.
  - injection Hi as ->. by rewrite Hx, Hy.
  - destruct (p z); [f_equal|]; by apply IH.
Qed.

Lemma filter_app_miss p l x : p x = false -> List.filter p (l ++ [x]) = List.filter p l.
Proof.
  intros H. rewrite List.filter_app. simpl. rewrite H. apply app_nil_r.
Qed.

Lemma filter_filter_same p l : List.filter p (List.filter p l) = List.filter p l.
Proof.
  induction l as [|x l IH]; [done|]. simpl.
  destruct (p x) eqn:E; simpl; rewrite ?E, IH; done.
Qed.

Lemma find_filter p q l :
  (forall x, p x = true -> q x = true) ->
  find p (List.filter q l) = find p l.
Proof.
  intros H. unfold find. induction l as [|x l IH]; [done|]. simpl.
  destruct (q x) eqn:Eq; simpl.
  - by rewrite IH.
  - destruct (p x) eqn:Ep; [|done]. apply H in Ep. congruence.
Qed.

Lemma find_some_findIndex p l x :
  find p l = Some x -> exists i : nat, findIndex p l = Z.of_nat i /\ l !! i = Some x.
Proof.
  intros H. destruct (findIndex_range p l) as [E|R].
  - apply find_none in E. congruence.
  - destruct (findIndex_some p l) as [i Ei]; [lia|].
    exists i. split; [done|]. by rewrite <- (find_findIndex _ _ _ Ei).
Qed.
End ArrayMoreFacts.

Section StoreLaws.
Import TaskStore Repository.
Implicit Types (s : State) (u t : DownloadTask) (l : list DownloadTask).

Lemma upsert_state s u :
  upsert s u = TaskStore.mk (tasks (upsert s u)) (isLoading s) (error s).
Proof.
  unfold upsert, updateTaskFromWebSocket. by case_match.
Qed.

(** X1. Repeating a push is harmless: applying [updateTaskFromWebSocket]
    a second time with the same payload leaves the store exactly as the
    first application left it. *)
Theorem upsert_idempotent s u : upsert (upsert s u) u = upsert s u.
Proof.
  rewrite (upsert_state (upsert s u) u), (upsert_state s u). simpl. f_equal.
  destruct (find_some_findIndex _ _ _ (upsert_stores s u)) as [i [Ei Hi]].
  rewrite <- (upsert_state s u).
  rewrite (upsert_known _ _ _ Ei). by apply list_insert_id.
Qed.

Lemma upsert_get s u n :
  get (upsert s u) n =
    if decide (DownloadTask.id u = Some n) then Some u else get s n.
Proof.
  unfold get. destruct (decide (DownloadTask.id u = Some n)) as [E|E].
  - rewrite <- (upsert_stores s u). apply find_pointwise.
    intros t. by apply id_is_same_id.
  - assert (Hu : id_is n u = false) by by apply id_is_false.
    destruct (findIndex_range (same_id u) (tasks s)) as [E1|R].
    + rewrite (upsert_unknown _ _ E1). by apply find_app_miss.
    + destruct (findIndex_some (same_id u) (tasks s)) as [i Ei]; [lia|].
      rewrite (upsert_known _ _ _ Ei).
      destruct (findIndex_first _ _ _ Ei) as [[x [Hx Hpx]] _].
      apply same_id_true in Hpx.
      apply (find_insert_miss _ _ _ x); [done| |done].
      apply id_is_false. congruence.
Qed.

(** X2. [get] after a push. Looking up the pushed id finds the pushed
    record; looking up any other id finds what it found before. *)
Theorem get_upsert s u n :
  get (upsert s u) n =
    if decide (DownloadTask.id u = Some n) then Some u else get s n.
Proof.
  unfold get. destruct (decide (DownloadTask.id u = Some n)) as [E|E].
  - rewrite <- (upsert_stores s u). apply find_pointwise.
    intros t. by apply id_is_same_id.
  - assert (Hu : id_is n u = false) by by apply id_is_false.
    destruct (findIndex_range (same_id u) (tasks s)) as [E1|R].
    + rewrite (upsert_unknown _ _ E1). by apply find_app_miss.
    + destruct (findIndex_some (same_id u) (tasks s)) as [i Ei]; [lia|].
      rewrite (upsert_known _ _ _ Ei).
      destruct (findIndex_first _ _ _ Ei) as [[x [Hx Hpx]] _].
      apply same_id_true in Hpx.
      apply (find_insert_miss _ _ _ x); [done| |done].
      apply id_is_false. congruence.
Qed.

(** X3. A push removes nothing. The entries with other ids are the same
    and in the same order afterwards, the collection is as long as before
    or one longer, and every id that could be looked up still can. *)
Theorem upsert_removes_nothing s u :
  List.filter (fun t => negb (same_id u t)) (all (upsert s u))
  = List.filter (fun t => negb (same_id u t)) (all s) /\
  (length (all s) <= length (all (upsert s u)) <= length (all s) + 1)%nat /\
  forall n, is_Some (get s n) -> is_Some (get (upsert s u) n).
Proof.
  unfold all. split; [|split].
  - assert (Hu : negb (same_id u u) = false)
      by (apply negb_false_iff; by apply same_id_true).
    destruct (findIndex_range (same_id u) (tasks s)) as [E1|R].
    + rewrite (upsert_unknown _ _ E1). by apply filter_app_miss.
    + destruct (findIndex_some (same_id u) (tasks s)) as [i Ei]; [lia|].
      rewrite (upsert_known _ _ _ Ei).
      destruct (findIndex_first _ _ _ Ei) as [[x [Hx Hpx]] _].
      apply (filter_insert_miss _ _ _ x); [done| |done].
      by rewrite Hpx.
  - destruct (findIndex_range (same_id u) (tasks s)) as [E1|R].
    + rewrite (upsert_unknown _ _ E1), length_app. simpl. lia.
    + destruct (findIndex_some (same_id u) (tasks s)) as [i Ei]; [lia|].
      rewrite (upsert_known _ _ _ Ei), length_insert. lia.
  - intros n Hn. rewrite upsert_get. by case_decide.
Qed.

Lemma upsert_removes_nothing_witness :
  is_Some (get (upsert (Sample.store_of [Sample.t1_pending; Sample.t2_downloading])
                  Sample.t3_completed) 1).
Proof.
  refine (proj2 (proj2 (upsert_removes_nothing
            (Sample.store_of [Sample.t1_pending; Sample.t2_downloading])
            Sample.t3_completed)) 1 _).
  by exists Sample.t1_pending.
Defined.

Lemma mutating_tasks_upsert s taskId response :
  DownloadTask.id (task response) = Some taskId ->
  is_Some (get s taskId) ->
  tasks (terminateTask_resume s taskId (Body (inr response))).1
  = tasks (upsert s (task response)) /\
  tasks (redownloadTask_resume s taskId (Body (inr response))).1
  = tasks (upsert s (task response)).
Proof.
  intros Hid [x Hx]. unfold get in Hx.
  destruct (find_some_findIndex _ _ _ Hx) as [i [Ei Hi]].
  assert (Ei' : findIndex (same_id (task response)) (tasks s) = Z.of_nat i).
  { rewrite <- Ei. symmetry. apply findIndex_pointwise.
    intros t. by apply id_is_same_id. }
  rewrite (upsert_known _ _ _ Ei').
  unfold terminateTask_resume, redownloadTask_resume. rewrite Ei.
  destruct (Z.eqb_spec (Z.of_nat i) (-1)); [lia|]. simpl.
  unfold array_set. by rewrite Nat2Z.id.
Qed.

(** X4. When the server answers [terminate] or [redownload] with the record
    of the task that was asked for and that task is stored, the store
    action leaves the same collection as a push of that record would. *)
Theorem mutating_result_is_upsert s taskId response :
  DownloadTask.id (task response) = Some taskId ->
  is_Some (get s taskId) ->
  tasks (terminateTask_resume s taskId (Body (inr response))).1
  = tasks (upsert s (task response)) /\
  tasks (redownloadTask_resume s taskId (Body (inr response))).1
  = tasks (upsert s (task response)).
Proof.
  intros Hid [x Hx]. unfold get in Hx.
  destruct (find_some_findIndex _ _ _ Hx) as [i [Ei Hi]].
  assert (Ei' : findIndex (same_id (task response)) (tasks s) = Z.of_nat i).
  { rewrite <- Ei. symmetry. apply findIndex_pointwise.
    intros t. by apply id_is_same_id. }
  rewrite (upsert_known _ _ _ Ei').
  unfold terminateTask_resume, redownloadTask_resume. rewrite Ei.
  destruct (Z.eqb_spec (Z.of_nat i) (-1)); [lia|]. simpl.
  unfold array_set. by rewrite Nat2Z.id.
Qed.

Lemma mutating_result_is_upsert_witness :
  tasks (terminateTask_resume
           (Sample.store_of [Sample.t1_pending; Sample.t2_downloading]) 2
           (Body (inr {| task_msg := "ok";
                         task := Sample.task (Some 2) TERMINATED "2024-05-01T09:35:00" |}))).1
  = tasks (upsert (Sample.store_of [Sample.t1_pending; Sample.t2_downloading])
             (Sample.task (Some 2) TERMINATED "2024-05-01T09:35:00")).
Proof.
  refine (proj1 (mutating_result_is_upsert
            (Sample.store_of [Sample.t1_pending; Sample.t2_downloading]) 2
            {| task_msg := "ok";
               task := Sample.task (Some 2) TERMINATED "2024-05-01T09:35:00" |}
            eq_refl _)).
  exists Sample.t2_downloading. reflexivity.
Defined.

Lemma filter_unique_ids p l : unique_ids l -> unique_ids (List.filter p l).
Proof.
  unfold unique_ids, ids. induction l as [|x l IH]; [done|].
  simpl. rewrite NoDup_cons. intros [Hx Hl]. destruct (p x); [|by apply IH].
  simpl. apply NoDup_cons. split; [|by apply IH].
  intros Hin. apply Hx.
  apply list_elem_of_fmap in Hin as [y [-> Hy]].
  apply list_elem_of_fmap. exists y. split; [done|].
  apply list_elem_of_In. apply list_elem_of_In, filter_In in Hy. tauto.
Qed.

(** X5. Ids stay distinct under everything that writes the store, as long
    as the server sends what is expected of it: snapshots without a
    repeated id, and for [terminate] and [redownload] the record of the
    task asked for. Starting from distinct ids, every sequence of action
    calls, REST answers (successes and failures) and pushes leaves distinct
    ids. *)
Theorem store_keeps_ids_distinct s (es : list TaskEvents.Event) :
  unique_ids (tasks s) ->
  Forall TaskEvents.expected es ->
  unique_ids (tasks (TaskEvents.run s es)).
Proof.
  revert s. induction es as [|e es IH]; intros s Hs Hes; [done|].
  apply Forall_cons in Hes as [He Hes].
  change (TaskEvents.run s (e :: es)) with (TaskEvents.run (TaskEvents.on s e) es).
  apply IH; [|done]. clear IH Hes.
  assert (Hmut : forall taskId response,
             DownloadTask.id (task response) = Some taskId ->
             unique_ids (tasks (terminateTask_resume s taskId (Body (inr response))).1) /\
             unique_ids (tasks (redownloadTask_resume s taskId (Body (inr response))).1)).
  { intros taskId response Hid.
    destruct (get s taskId) as [x|] eqn:Hget.
    - destruct (mutating_tasks_upsert s taskId response Hid) as [-> ->];
        [by exists x|]. split; by apply upsert_unique_ids.
    - assert (E : findIndex (id_is taskId) (tasks s) = -1).
      { destruct (findIndex_range (id_is taskId) (tasks s)) as [E|R]; [done|].
        destruct (findIndex_some (id_is taskId) (tasks s)) as [i Ei]; [lia|].
        destruct (findIndex_first _ _ _ Ei) as [[y [Hy _]] _].
        unfold get in Hget. rewrite (find_findIndex _ _ _ Ei) in Hget. congruence. }
      unfold terminateTask_resume, redownloadTask_resume. rewrite E. by simpl. }
  destruct e as [q|r|taskId r|taskId r|taskId r|u]; simpl.
  - done.
  - destruct r as [|[e|response]]; simpl in *; done.
  - destruct r as [|[e|response]]; simpl in *; try done. by apply Hmut.
  - destruct r as [|[e|response]]; simpl in *; try done. by apply filter_unique_ids.
  - destruct r as [|[e|response]]; simpl in *; try done. by apply Hmut.
  - by apply upsert_unique_ids.
Qed.

Lemma store_keeps_ids_distinct_witness :
  unique_ids (tasks (TaskEvents.run TaskStore.init
    [TaskEvents.called GET_tasks_list;
     TaskEvents.fetched (Body (inr {| tasks_of := [Sample.t1_pending; Sample.t2_downloading] |}));
     TaskEvents.pushed Sample.t1_downloading;
     TaskEvents.terminated 2
       (Body (inr {| task_msg := "ok";
                     task := Sample.task (Some 2) TERMINATED "2024-05-01T09:35:00" |}));
     TaskEvents.deleted 1 (Body (inr {| msg := "deleted" |}));
     TaskEvents.pushed Sample.t3_completed])).
Proof.
  apply store_keeps_ids_distinct.
  - apply NoDup_nil_2.
  - repeat (apply Forall_cons; split); try exact I; try reflexivity;
      [|apply Forall_nil_2].
    apply (bool_decide_unpack _). vm_compute. reflexivity.
Defined.

(** X6. [get] after a successful [deleteTask], and deleting twice. The
    deleted id is no longer found, every other id is found as before, and a
    second successful delete of the same id changes nothing. *)
Theorem delete_laws s taskId (m m' : MessageResponse) :
  let s1 := (deleteTask_resume s taskId (Body (inr m))).1 in
  (forall n, get s1 n = if decide (n = taskId) then None else get s n) /\
  (deleteTask_resume s1 taskId (Body (inr m'))).1 = s1.
Proof.
  simpl. split.
  - intros n. unfold get. simpl. case_decide as E.
    + subst n. apply find_none, findIndex_absent.
      intros t Ht. apply id_is_false. by eapply filter_out_id_absent.
    + apply find_filter. intros t Ht. apply id_is_true in Ht.
      apply negb_true_iff, id_is_false. congruence.
  - unfold done_loading, set_tasks. simpl. f_equal. apply filter_filter_same.
Qed.
End StoreLaws.

(** ** Further properties of the task view *)

Section ViewLaws.
Import TasksView.
Implicit Types (v : State) (a : Action) (row : DownloadTask).

Lemma store_resume_not_loading st a taskId r st' res :
  store_resume st a taskId r = Some (st', res) -> TaskStore.isLoading st' = false.
Proof.
  destruct a, r as [[|[e|x]]|[|[e|x]]]; simpl; intros [= <- _]; done.
Qed.

Lemma loading_clear a row : loading clear_refs a row = false.
Proof. unfold loading. simpl. by rewrite andb_false_r. Qed.

Lemma lookup_set_phase (cs : list Call) (k j : nat) p :
  j <> k -> set_phase cs k p !! j = cs !! j.
Proof. intros H. unfold set_phase. by apply list_lookup_alter_ne. Qed.

(** X7. The refs and the store's [isLoading] are shared by all calls. When
    the answer of one call arrives, the refs are cleared, no button shows
    as loading any more and [isLoading] is [false], while every other call
    is where it was, still in flight if it was in flight; no request is
    issued. The same holds for the refs when a dialog is cancelled. *)
Theorem finished_call_clears_shared_flags v (k : nat) a taskId :
  (forall r st res,
      calls v !! k = Some (mkCall a taskId AwaitRest) ->
      store_resume (taskStore v) a taskId r = Some (st, res) ->
      let v' := reply v k r in
      refs v' = clear_refs /\
      (forall a' row, loading (refs v') a' row = false) /\
      TaskStore.isLoading (taskStore v') = false /\
      (forall j : nat, j <> k -> calls v' !! j = calls v !! j) /\
      requests v' = requests v) /\
  (calls v !! k = Some (mkCall a taskId AwaitConfirm) ->
   let v' := confirm v k false in
   refs v' = clear_refs /\
   (forall a' row, loading (refs v') a' row = false) /\
   taskStore v' = taskStore v /\
   (forall j : nat, j <> k -> calls v' !! j = calls v !! j) /\
   requests v' = requests v).
Proof.
  split.
  - intros r st res Hk Hr. simpl. unfold reply. rewrite Hk, Hr. simpl.
    split; [done|]. split; [intros; apply loading_clear|].
    split; [by eapply store_resume_not_loading|].
    split; [intros; by apply lookup_set_phase|done].
  - intros Hk. simpl. unfold confirm. rewrite Hk. simpl.
    split; [done|]. split; [intros; apply loading_clear|].
    split; [done|]. split; [intros; by apply lookup_set_phase|done].
Qed.

Lemma finished_call_clears_shared_flags_witness :
  let row := Sample.task (Some 5) DOWNLOADING "2024-05-01T09:20:00" in
  let v := steps (init (Sample.store_of [row; Sample.t3_completed]))
             [Invoke terminate 5; Confirm 0 true; Invoke redownload 3] in
  let v' := reply v 1 (task_reply Threw) in
  loading (refs v) redownload Sample.t3_completed = true /\
  loading (refs v') redownload Sample.t3_completed = false /\
  loading (refs v') terminate row = false /\
  calls v' !! 0%nat = Some (mkCall terminate 5 AwaitRest).
Proof.
  pose proof (proj1 (finished_call_clears_shared_flags
    (steps (init (Sample.store_of
       [Sample.task (Some 5) DOWNLOADING "2024-05-01T09:20:00"; Sample.t3_completed]))
       [Invoke terminate 5; Confirm 0 true; Invoke redownload 3])
    1 redownload 3) (task_reply Threw) _ _ eq_refl eq_refl)
    as [_ [Hload [_ [Hother _]]]].
  split; [reflexivity|]. split; [apply Hload|]. split; [apply Hload|].
  rewrite Hother by lia. reflexivity.
Defined.

Lemma requests_step v e :
  requests (step v e) = requests v \/
  (exists taskId, e = Invoke redownload taskId /\
                  requests (step v e) = requests v ++ [POST_redownload taskId]) \/
  (exists (k : nat) a taskId,
      e = Confirm k true /\
      calls v !! k = Some (mkCall a taskId AwaitConfirm) /\
      requests (step v e) = requests v ++ [request_of a taskId]).
Proof.
  destruct e as [a taskId|k ok|k r]; simpl.
  - destruct a; simpl; eauto.
  - unfold confirm. destruct (calls v !! k) as [[a taskId []]|] eqn:Hk; eauto.
    destruct ok; [|eauto]. right. right. exists k, a, taskId.
    split; [done|]. split; [done|]. by destruct a.
  - unfold reply. destruct (calls v !! k) as [[a taskId []]|]; eauto.
    destruct (store_resume _ _ _ _) as [[st res]|]; eauto.
Qed.

Lemma calls_step v e (j : nat) c :
  calls v !! j = Some c ->
  exists p, calls (step v e) !! j = Some (mkCall (call_action c) (call_taskId c) p) /\
            (call_phase c <> AwaitConfirm -> p <> AwaitConfirm).
Proof.
  intros Hj.
  assert (Hset : forall (k : nat) p, p <> AwaitConfirm ->
    exists p', set_phase (calls v) k p !! j
               = Some (mkCall (call_action c) (call_taskId c) p') /\
               (call_phase c <> AwaitConfirm -> p' <> AwaitConfirm)).
  { intros k p Hp. unfold set_phase. destruct (decide (j = k)) as [->|Hne].
    - rewrite list_lookup_alter_eq, Hj. simpl. eauto.
    - rewrite list_lookup_alter_ne, Hj by done. destruct c. simpl. eauto. }
  assert (Hsame : exists p, calls v !! j = Some (mkCall (call_action c) (call_taskId c) p) /\
                            (call_phase c <> AwaitConfirm -> p <> AwaitConfirm)).
  { exists (call_phase c). by destruct c. }
  assert (Happ : forall c', exists p,
             (calls v ++ [c']) !! j = Some (mkCall (call_action c) (call_taskId c) p) /\
             (call_phase c <> AwaitConfirm -> p <> AwaitConfirm)).
  { intros c'. exists (call_phase c). rewrite (lookup_app_l_Some _ _ _ _ Hj).
    by destruct c. }
  destruct e as [a taskId|k ok|k r]; simpl.
  - destruct a; simpl; apply Happ.
  - unfold confirm. destruct (calls v !! k) as [[a taskId []]|]; try done.
    destruct ok; [destruct a|]; simpl; by apply Hset.
  - unfold reply. destruct (calls v !! k) as [[a taskId []]|]; try done.
    destruct (store_resume _ _ _ _) as [[st res]|]; [|done]. simpl. by apply Hset.
Qed.

(** X8. The view issues no request nobody asked for. After any sequence
    of handler calls, dialog answers and REST answers, starting with no
    call, every request issued belongs to a call of a handler with that
    action and id which is past its dialog; and as long as no dialog is
    confirmed, no terminate or delete request is issued at all. *)
Theorem requests_belong_to_calls st (es : list Event) :
  (forall q, q ∈ requests (steps (init st) es) ->
             exists (j : nat) c,
               calls (steps (init st) es) !! j = Some c /\
               q = request_of (call_action c) (call_taskId c) /\
               call_phase c <> AwaitConfirm) /\
  ((forall k, Confirm k true ∉ es) ->
   forall q, q ∈ requests (steps (init st) es) -> exists taskId, q = POST_redownload taskId).
Proof.
  split.
  - induction es as [|e es IH] using rev_ind.
    + simpl. intros q Hq. by apply elem_of_nil in Hq.
    + unfold steps in *. rewrite foldl_app. simpl.
      set (v := foldl step (init st) es) in *.
      assert (Hold : forall q, q ∈ requests v ->
                exists (j : nat) c, calls (step v e) !! j = Some c /\
                  q = request_of (call_action c) (call_taskId c) /\
                  call_phase c <> AwaitConfirm).
      { intros q Hq. destruct (IH q Hq) as [j [c [Hj [-> Hp]]]].
        destruct (calls_step v e j c Hj) as [p [Hj' Hp']].
        exists j, (mkCall (call_action c) (call_taskId c) p). simpl. eauto. }
      intros q Hq.
      destruct (requests_step v e) as [E|[[taskId [-> E]]|[k [a [taskId [-> [Hk E]]]]]]];
        rewrite E in Hq.
      * by apply Hold.
      * apply elem_of_app in Hq as [Hq|Hq%list_elem_of_singleton]; [by apply Hold|].
        subst q. exists (length (calls v)), (mkCall redownload taskId AwaitRest).
        simpl. split; [|done]. by rewrite lookup_app_r, Nat.sub_diag.
      * apply elem_of_app in Hq as [Hq|Hq%list_elem_of_singleton]; [by apply Hold|].
        subst q. exists k, (mkCall a taskId AwaitRest). simpl.
        split; [|done]. unfold confirm. rewrite Hk.
        destruct a; simpl; unfold set_phase; by rewrite list_lookup_alter_eq, Hk.
  - induction es as [|e es IH] using rev_ind.
    + simpl. intros _ q Hq. by apply elem_of_nil in Hq.
    + intros Hno. unfold steps in *. rewrite foldl_app. simpl.
      set (v := foldl step (init st) es) in *.
      assert (IH' : forall q, q ∈ requests v -> exists taskId, q = POST_redownload taskId).
      { apply IH. intros k Hk. apply (Hno k). apply elem_of_app. by left. }
      intros q Hq.
      destruct (requests_step v e) as [E|[[taskId [-> E]]|[k [a [taskId [-> _]]]]]].
      * rewrite E in Hq. by apply IH'.
      * rewrite E in Hq.
        apply elem_of_app in Hq as [Hq|Hq%list_elem_of_singleton]; [by apply IH'|].
        by exists taskId.
      * exfalso. apply (Hno k). apply elem_of_app. right. by apply list_elem_of_singleton.
Qed.

Lemma requests_belong_to_calls_witness :
  Forall (fun q => exists taskId, q = POST_redownload taskId)
    (requests (steps (init TaskStore.init)
                 [Invoke terminate 5; Invoke redownload 3; Confirm 0 false; Invoke delete 2])).
Proof.
  apply Forall_forall.
  refine (proj2 (requests_belong_to_calls TaskStore.init
            [Invoke terminate 5; Invoke redownload 3; Confirm 0 false; Invoke delete 2]) _).
  intros k Hk. repeat (apply elem_of_cons in Hk as [Hk|Hk]; [discriminate|]).
  by apply elem_of_nil in Hk.
Defined.

(** X9. The buttons of a row follow its status, and agree with the
    progress column. A row not marked deleted always has the delete button
    and exactly one of terminate and redownload: terminate where the
    progress column shows the running or the waiting block, redownload
    where it shows the completed, failed or terminated block. A row marked
    deleted has no button. *)
Theorem buttons_follow_status row :
  (not_deleted row = true ->
   offered delete row = true /\
   offered terminate row = negb (offered redownload row) /\
   (offered terminate row = true <->
    progress_block row = task_progress_info \/ progress_block row = task_pending)) /\
  (not_deleted row = false -> forall a, offered a row = false).
Proof.
  unfold offered, progress_block. split.
  - intros ->. simpl. destruct (DownloadTask.status row); vm_compute; intuition congruence.
  - intros ->. done.
Qed.

Lemma buttons_follow_status_witness :
  offered terminate Sample.t2_downloading = true /\
  offered redownload Sample.t2_downloading = false /\
  offered delete Sample.t2_downloading = true.
Proof.
  destruct (proj1 (buttons_follow_status Sample.t2_downloading) eq_refl)
    as [Hd [Ht Hb]].
  split; [apply Hb; left; reflexivity|]. split; [|exact Hd].
  apply negb_true_iff. rewrite <- Ht. apply Hb. left. reflexivity.
Defined.

(** X10. The status labels. [getStatusText] gives the six statuses six
    different labels and shows any other string as it is; [getStatusType]
    colours PENDING and every unknown string as [info] and no other
    status. *)
Theorem status_labels :
  (forall s1 s2, getStatusText (wire s1) = getStatusText (wire s2) -> s1 = s2) /\
  (forall s, getStatusType (wire s) = "info" <-> s = PENDING) /\
  (forall str, (forall s, str <> wire s) ->
               getStatusText str = str /\ getStatusType str = "info").
Proof.
  split; [|split].
  - intros [] []; vm_compute; congruence.
  - intros []; vm_compute; split; congruence.
  - intros str H. unfold getStatusText, getStatusType.
    pose proof (H PENDING). pose proof (H DOWNLOADING). pose proof (H PROCESSING).
    pose proof (H COMPLETED). pose proof (H FAILED). pose proof (H TERMINATED).
    simpl in *. by rewrite !bool_decide_eq_false_2.
Qed.

Lemma status_labels_witness :
  getStatusText "REVOKED" = "REVOKED" /\ getStatusType "REVOKED" = "info".
Proof.
  apply (proj2 (proj2 status_labels) "REVOKED"). intros []; discriminate.
Defined.
End ViewLaws.

(** ** Further properties of the realtime channel *)

Section ChannelLaws.
Import WebSocketAPI.
Implicit Types (c : State) (k : Conn) (e : ServerEvent) (l : list Item).

Ltac deliver_cases e :=
  destruct e; simpl;
  unfold on_connect, on_request_auth, on_auth_response, on_task_update,
    on_connect_error, on_disconnect, socket_opt_emit, socket_opt_disconnect;
  simpl; repeat case_match; simpl.

Lemma deliver_callback k e :
  taskUpdateCallback (api (deliver k e)) = taskUpdateCallback (api k).
Proof. deliver_cases e; done. Qed.

Lemma deliver_token k e : token (deliver k e) = token k.
Proof. deliver_cases e; done. Qed.

Lemma deliver_store k e :
  store (deliver k e) =
    match e, taskUpdateCallback (api k) with
    | task_update d, Some callback => callback (store k) d
    | _, _ => store k
    end.
Proof. deliver_cases e; simplify_eq; done. Qed.

Lemma deliver_settled k e : promise k <> Pending -> promise (deliver k e) = promise k.
Proof. intros H. deliver_cases e; destruct (promise k); done. Qed.

Lemma deliver_dropped k e : socket (api k) = None -> socket (api (deliver k e)) = None.
Proof. intros H. deliver_cases e; simplify_eq; simpl; by rewrite ?H. Qed.

Lemma deliver_drops k e :
  (exists err, e = connect_error err) \/ (exists r, e = ev_disconnect r) ->
  socket (api (deliver k e)) = None.
Proof. intros [[err ->]|[r ->]]; simpl; unfold on_connect_error, on_disconnect; simpl;
  repeat case_match; simpl; done. Qed.

(** What one delivery adds to the wire log. *)
Lemma deliver_log k e :
  log (deliver k e) = log k ++ [Received e] \/
  exists m t, e = request_auth m /\ truthy (token k) = Some t /\
              log (deliver k e) = log k ++ [Received e; Emitted (authenticate t)].
Proof.
  deliver_cases e; rewrite <- ?app_assoc; simpl; eauto 10.
Qed.

Lemma deliver_all_token k es : token (deliver_all k es) = token k.
Proof.
  induction es as [|e es IH] using rev_ind; [done|].
  by rewrite deliver_all_snoc, deliver_token.
Qed.

Lemma deliver_all_callback k es :
  taskUpdateCallback (api (deliver_all k es)) = taskUpdateCallback (api k).
Proof.
  induction es as [|e es IH] using rev_ind; [done|].
  by rewrite deliver_all_snoc, deliver_callback.
Qed.

Lemma deliver_all_dropped k es :
  socket (api k) = None -> socket (api (deliver_all k es)) = None.
Proof.
  intros H. induction es as [|e es IH] using rev_ind; [done|].
  rewrite deliver_all_snoc. by apply deliver_dropped.
Qed.

Lemma deliver_all_store k es :
  store (deliver_all k es) =
    match taskUpdateCallback (api k) with
    | Some callback => foldl callback (store k) (Realtime.task_updates es)
    | None => store k
    end.
Proof.
  induction es as [|e es IH] using rev_ind; [by case_match|].
  rewrite deliver_all_snoc, deliver_store, deliver_all_callback, IH.
  destruct (taskUpdateCallback (api k)) as [callback|]; [|by destruct e].
  unfold Realtime.task_updates. rewrite omap_app, foldl_app. by destruct e.
Qed.

Lemma deliver_all_settled k es :
  promise k <> Pending -> promise (deliver_all k es) = promise k.
Proof.
  intros H. induction es as [|e es IH] using rev_ind; [done|].
  rewrite deliver_all_snoc, deliver_settled; [done|]. by rewrite IH.
Qed.

Lemma deliver_verdict k e :
  promise k = Pending ->
  promise (deliver k e) = default Pending (verdict (token k) e).
Proof.
  intros H. deliver_cases e; rewrite ?H; simplify_eq; simpl; done.
Qed.

Lemma verdict_settles tok e p : verdict tok e = Some p -> p <> Pending.
Proof.
  destruct e; simpl; repeat case_match; intros; simplify_eq; done.
Qed.

(** X11. [connect] settles with the first event that decides, and that is
    final. A pending promise stays pending through [connect],
    [task_update] and [disconnect] events and through a [request_auth]
    answered with a token; the first [auth_response], [connect_error] or
    [request_auth] without a token settles it, resolved [true] for
    [success: true], rejected with [Authentication failed: ] and the
    message for [success: false], with the transport's error, or with
    [No authentication token available.]; whatever follows changes
    nothing. *)
Theorem connect_settles_on_first_verdict k es :
  promise (deliver_all k es) =
    match promise k with
    | Pending => default Pending (first_verdict (token k) es)
    | p => p
    end.
Proof.
  revert k. induction es as [|e es IH]; intros k.
  - simpl. by destruct (promise k).
  - change (deliver_all k (e :: es)) with (deliver_all (deliver k e) es).
    rewrite IH, deliver_token. unfold first_verdict. simpl.
    destruct (promise k) eqn:Ep.
    + rewrite (deliver_verdict _ _ Ep).
      destruct (verdict (token k) e) as [p|] eqn:Ev; simpl; [|done].
      apply verdict_settles in Ev. by destruct p.
    + rewrite deliver_settled, Ep by (rewrite Ep; done). done.
    + rewrite deliver_settled, Ep by (rewrite Ep; done). done.
Qed.

(** X12. The token leaves the client only when asked for. In the wire log
    of a [connect] that found no connected socket, and so installed its
    own listeners, whatever events arrive, every emitted message is an
    [authenticate] carrying the token given to [connect], it comes directly
    after a received [request_auth], and with no token ([null] or the
    empty string) nothing is ever emitted. *)
Theorem token_only_sent_on_request c tok st es :
  isConnected c = false ->
  let k := deliver_all (connect c tok st) es in
  (forall (i : nat) m,
      log k !! i = Some (Emitted m) ->
      (exists t, truthy tok = Some t /\ m = authenticate t) /\
      exists (j : nat) msg, i = S j /\ log k !! j = Some (Received (request_auth msg))) /\
  (truthy tok = None -> forall m, Emitted m ∉ log k).
Proof.
  intros Hc. simpl.
  assert (H : forall (i : nat) m,
      log (deliver_all (connect c tok st) es) !! i = Some (Emitted m) ->
      (exists t, truthy tok = Some t /\ m = authenticate t) /\
      exists (j : nat) msg, i = S j /\
        log (deliver_all (connect c tok st) es) !! j = Some (Received (request_auth msg))).
  { induction es as [|e es IH] using rev_ind.
    - intros i m. unfold connect. rewrite Hc. simpl.
      destruct i as [|[|i]]; simpl; done.
    - rewrite deliver_all_snoc. set (k := deliver_all (connect c tok st) es) in *.
      assert (Htok : token k = tok).
      { unfold k. rewrite deliver_all_token. unfold connect. by rewrite Hc. }
      intros i m Hi.
      assert (Hold : (i < length (log k))%nat ->
                log k !! i = Some (Emitted m) ->
                forall l', (exists t, truthy tok = Some t /\ m = authenticate t) /\
                  exists (j : nat) msg, i = S j /\
                    (log k ++ l') !! j = Some (Received (request_auth msg))).
      { intros Hlt Hi' l'. destruct (IH i m Hi') as [Ht [j [msg [-> Hj]]]].
        split; [done|]. exists j, msg. split; [done|]. by apply lookup_app_l_Some. }
      destruct (deliver_log k e) as [E|[msg [t [-> [Et E]]]]]; rewrite E in Hi |- *.
      + destruct (decide (i < length (log k))%nat) as [Hlt|Hge].
        * rewrite lookup_app_l in Hi by done. by apply Hold.
        * rewrite lookup_app_r in Hi by lia.
          destruct (i - length (log k))%nat as [|n]; simpl in Hi; done.
      + destruct (decide (i < length (log k))%nat) as [Hlt|Hge].
        * rewrite lookup_app_l in Hi by done. by apply Hold.
        * rewrite lookup_app_r in Hi by lia.
          destruct (i - length (log k))%nat as [|[|n]] eqn:En; simpl in Hi; try done.
          injection Hi as <-. split.
          -- exists t. by rewrite <- Htok.
          -- exists (length (log k)), msg. split; [lia|].
             by rewrite lookup_app_r, Nat.sub_diag. }
  split; [done|].
  intros Hnone m Hm. apply list_elem_of_lookup in Hm as [i Hi].
  destruct (H i m Hi) as [[t [Ht _]] _]. congruence.
Qed.

Lemma token_only_sent_on_request_witness :
  Forall (fun i => forall m, i <> Emitted m)
    (log (deliver_all (connect init (Some "") TaskStore.init)
            [ev_connect; request_auth "auth"; auth_response true "ok"])).
Proof.
  apply Forall_forall. intros i Hi m ->. revert Hi.
  exact (proj2 (token_only_sent_on_request init (Some "") TaskStore.init
           [ev_connect; request_auth "auth"; auth_response true "ok"] eq_refl)
           eq_refl m).
Defined.

(** X13. No event reconnects. After a [connect_error] or a [disconnect]
    event the module has no socket, and whatever events follow it has none
    and [isConnected()] is [false]: only a new call of [connect] opens a
    transport again. *)
Theorem no_event_reconnects k e es :
  (exists err, e = connect_error err) \/ (exists r, e = ev_disconnect r) ->
  socket (api (deliver_all (deliver k e) es)) = None /\
  isConnected (api (deliver_all (deliver k e) es)) = false.
Proof.
  intros He. apply deliver_drops with (k := k) in He.
  pose proof (deliver_all_dropped _ es He) as H.
  split; [done|]. unfold isConnected. by rewrite H.
Qed.

Lemma no_event_reconnects_witness :
  isConnected (api (deliver_all
    (deliver (deliver_all (connect init (Some "jwt") TaskStore.init)
                [ev_connect; request_auth "auth"; auth_response true "ok"])
       (ev_disconnect "transport close"))
    [ev_connect; auth_response true "ok"])) = false.
Proof.
  refine (proj2 (no_event_reconnects
    (deliver_all (connect init (Some "jwt") TaskStore.init)
       [ev_connect; request_auth "auth"; auth_response true "ok"])
    (ev_disconnect "transport close") [ev_connect; auth_response true "ok"] _)).
  right. by exists "transport close".
Defined.

(** X14. Pushes reach the subscriber one by one, in arrival order, and
    nothing else touches the store: after any sequence of events the store
    is what the registered subscriber makes of it by being called on the
    payloads of the [task_update] events in order; with no subscriber
    registered the store is unchanged and the pushes are lost. *)
Theorem pushes_forwarded_in_order k es :
  store (deliver_all k es) =
    match taskUpdateCallback (api k) with
    | Some callback => foldl callback (store k) (Realtime.task_updates es)
    | None => store k
    end.
Proof.
  induction es as [|e es IH] using rev_ind; [by case_match|].
  rewrite deliver_all_snoc, deliver_store, deliver_all_callback, IH.
  destruct (taskUpdateCallback (api k)) as [callback|]; [|by destruct e].
  unfold Realtime.task_updates. rewrite omap_app, foldl_app. by destruct e.
Qed.

(** X15. [disconnect()] leaves the module as it started, with no socket and
    no subscriber, so a second call changes nothing; until [connect] is
    called again no event changes the task store or makes [isConnected()]
    answer [true]. *)
Theorem disconnect_is_final c k es :
  disconnect c = init /\
  disconnect (disconnect c) = disconnect c /\
  (api k = disconnect c ->
   store (deliver_all k es) = store k /\
   isConnected (api (deliver_all k es)) = false).
Proof.
  pose proof (disconnect_cleared c) as Hc. split; [done|].
  split; [by rewrite (disconnect_cleared (disconnect c))|].
  intros Hk. rewrite Hc in Hk. split.
  - rewrite deliver_all_store, Hk. done.
  - unfold isConnected. rewrite deliver_all_dropped; [done|]. by rewrite Hk.
Qed.

Lemma disconnect_is_final_witness :
  let k := deliver_all (connect init (Some "jwt") (Sample.store_of [Sample.t1_pending]))
             [ev_connect; request_auth "auth"; auth_response true "ok"] in
  let k' := with_api k (disconnect (onTaskUpdate (api k) TaskStore.updateTaskFromWebSocket)) in
  store (deliver_all k' [task_update Sample.t2_downloading])
  = Sample.store_of [Sample.t1_pending].
Proof.
  exact (proj1 (proj2 (proj2 (disconnect_is_final
    (onTaskUpdate (api (deliver_all
       (connect init (Some "jwt") (Sample.store_of [Sample.t1_pending]))
       [ev_connect; request_auth "auth"; auth_response true "ok"]))
       TaskStore.updateTaskFromWebSocket)
    (with_api (deliver_all
       (connect init (Some "jwt") (Sample.store_of [Sample.t1_pending]))
       [ev_connect; request_auth "auth"; auth_response true "ok"])
       (disconnect (onTaskUpdate (api (deliver_all
          (connect init (Some "jwt") (Sample.store_of [Sample.t1_pending]))
          [ev_connect; request_auth "auth"; auth_response true "ok"]))
          TaskStore.updateTaskFromWebSocket)))
    [task_update Sample.t2_downloading])) eq_refl)).
Defined.

(** X16. [isConnected()] follows the transport. After a [connect] that
    found no connected socket, [isConnected()] answers [true] only if a
    [connect] event of the transport has been received. *)
Theorem connected_only_after_connect_event c tok st es :
  isConnected c = false ->
  isConnected (api (deliver_all (connect c tok st) es)) = true ->
  Received ev_connect ∈ log (deliver_all (connect c tok st) es).
Proof.
  intros Hc. induction es as [|e es IH] using rev_ind.
  - unfold connect. rewrite Hc. simpl. unfold isConnected. simpl.
    by destruct (socket c).
  - rewrite deliver_all_snoc. set (k := deliver_all (connect c tok st) es) in *.
    intros H.
    assert (Hin : Received e ∈ log (deliver k e) /\
                  forall x, x ∈ log k -> x ∈ log (deliver k e)).
    { destruct (deliver_log k e) as [E|[m [t [_ [_ E]]]]]; rewrite E; split;
        try (intros x Hx; apply elem_of_app; by left);
        apply elem_of_app; right; apply elem_of_cons; by left. }
    destruct Hin as [Hnew Hold].
    destruct e; [exact Hnew|..]; apply Hold, IH; revert H; unfold isConnected;
      simpl; unfold on_request_auth, on_auth_response, on_task_update,
        on_connect_error, on_disconnect, socket_opt_emit, socket_opt_disconnect;
      simpl; repeat case_match; simplify_eq; simpl in *; simplify_eq; try done.
Qed.

Lemma connected_only_after_connect_event_witness :
  Received ev_connect ∈
    log (deliver_all (connect init (Some "jwt") TaskStore.init) [ev_connect]).
Proof.
  exact (connected_only_after_connect_event init (Some "jwt") TaskStore.init
           [ev_connect] eq_refl eq_refl).
Defined.
End ChannelLaws.


(** ** The listener set up by the task store *)

Section ListenerLaws.
Import WebSocketAPI Realtime.
Implicit Types (l : Listener) (e : ServerEvent) (job : list ServerEvent).

Lemma on_jobs_snoc l jobs job : on_jobs l (jobs ++ [job]) = on_job (on_jobs l jobs) job.
Proof. unfold on_jobs. by rewrite foldl_app. Qed.

Lemma deliver_all_app k es es' :
  deliver_all k (es ++ es') = deliver_all (deliver_all k es) es'.
Proof. unfold deliver_all. by rewrite foldl_app. Qed.

Lemma run_then_store l : store (conn (run_then l)) = store (conn l).
Proof. unfold run_then. by repeat case_match. Qed.

Lemma run_then_pending l :
  then_pending (run_then l) = true -> run_then l = l /\ then_pending l = true.
Proof. unfold run_then. destruct l as [k []]; simpl; by repeat case_match. Qed.

(** Between jobs the [then] callback is pending exactly while the promise
    is, and once the promise is resolved the store's handler is the
    subscriber. *)
Lemma setup_registered tok c st l :
  setupWebSocketListener tok c st = Some l ->
  (then_pending l = true <-> promise (conn l) = Pending) /\
  (forall v, promise (conn l) = Resolved v ->
             taskUpdateCallback (api (conn l)) = Some TaskStore.updateTaskFromWebSocket).
Proof.
  unfold setupWebSocketListener. destruct (truthy tok) as [t|]; [|done].
  intros [= <-]. unfold run_then, connect. simpl.
  destruct (isConnected c); simpl; split; try done; by split.
Qed.

Lemma on_job_registered l job :
  (then_pending l = true <-> promise (conn l) = Pending) /\
  (forall v, promise (conn l) = Resolved v ->
             taskUpdateCallback (api (conn l)) = Some TaskStore.updateTaskFromWebSocket) ->
  (then_pending (on_job l job) = true <-> promise (conn (on_job l job)) = Pending) /\
  (forall v, promise (conn (on_job l job)) = Resolved v ->
             taskUpdateCallback (api (conn (on_job l job)))
             = Some TaskStore.updateTaskFromWebSocket).
Proof.
  intros [Hp Hr]. unfold on_job, run_then. simpl.
  destruct (then_pending l) eqn:Ep.
  - destruct (promise (deliver_all (conn l) job)) eqn:Ed; simpl; rewrite ?Ed;
      split; try done; by split.
  - simpl. assert (Hs : promise (conn l) <> Pending).
    { intros H. apply Hp in H. done. }
    rewrite (deliver_all_settled _ job Hs), deliver_all_callback.
    split; [|done]. split; [done|]. intros H. by apply Hp in H.
Qed.

Lemma on_jobs_registered tok c st l jobs :
  setupWebSocketListener tok c st = Some l ->
  (then_pending (on_jobs l jobs) = true <-> promise (conn (on_jobs l jobs)) = Pending) /\
  (forall v, promise (conn (on_jobs l jobs)) = Resolved v ->
             taskUpdateCallback (api (conn (on_jobs l jobs)))
             = Some TaskStore.updateTaskFromWebSocket).
Proof.
  intros H. induction jobs as [|job jobs IH] using rev_ind.
  - by eapply setup_registered.
  - rewrite on_jobs_snoc. by apply on_job_registered.
Qed.

(** Once the [then] callback has run, a job only hands its events to the
    module. *)
Lemma on_jobs_delivered l jobs :
  then_pending l = false ->
  on_jobs l jobs = mkListener (deliver_all (conn l) (concat jobs)) false.
Proof.
  intros H. induction jobs as [|job jobs IH] using rev_ind.
  - by destruct l; simpl in *; subst.
  - rewrite on_jobs_snoc, IH, concat_app, deliver_all_app. simpl.
    by rewrite app_nil_r.
Qed.

(** While the callback is pending and nobody subscribed before, nothing
    has reached the store. *)
Lemma on_jobs_unsubscribed tok c st l jobs :
  setupWebSocketListener tok c st = Some l ->
  taskUpdateCallback c = None ->
  then_pending (on_jobs l jobs) = true ->
  taskUpdateCallback (api (conn (on_jobs l jobs))) = None /\
  store (conn (on_jobs l jobs)) = st.
Proof.
  intros Hl Hc. induction jobs as [|job jobs IH] using rev_ind.
  - simpl. revert Hl. unfold setupWebSocketListener.
    destruct (truthy tok) as [t|]; [|done]. intros [= <-] Hp.
    apply run_then_pending in Hp as [-> _]. simpl.
    unfold connect. destruct (isConnected c); simpl; [done|].
    by destruct (socket c).
  - rewrite on_jobs_snoc. unfold on_job at 1 2 3. intros Hp.
    apply run_then_pending in Hp as [-> Hp]. simpl in *.
    destruct (IH Hp) as [Hcb Hst]. split.
    + by rewrite deliver_all_callback.
    + pose proof (deliver_all_store (conn (on_jobs l jobs)) job) as Hs.
      rewrite Hcb in Hs. by rewrite Hs.
Qed.

(** X17. [setupWebSocketListener] does nothing without a token. With one,
    whatever jobs of events follow, once [connect] has resolved and the
    job in which it did is over, the subscriber is the store's
    [updateTaskFromWebSocket], and from then on the task store is the fold
    of [updateTaskFromWebSocket] over the pushed records in arrival order.
    Before that, when nobody subscribed earlier, every push is lost: as
    long as the callback has not run, a whole job leaves the store as it
    was at the start, also a job in which the [auth_response] is followed
    by pushes. *)
Theorem listener_applies_pushes_once_resolved tok c st jobs :
  (setupWebSocketListener tok c st = None <-> truthy tok = None) /\
  forall l, setupWebSocketListener tok c st = Some l ->
    let l' := on_jobs l jobs in
    (promise (conn l') = Resolved true ->
     taskUpdateCallback (api (conn l')) = Some TaskStore.updateTaskFromWebSocket /\
     forall jobs',
       store (conn (on_jobs l' jobs'))
       = foldl TaskStore.updateTaskFromWebSocket (store (conn l'))
           (task_updates (concat jobs'))) /\
    (taskUpdateCallback c = None ->
     then_pending l' = true ->
     forall job, store (conn (on_job l' job)) = st).
Proof.
  split.
  - unfold setupWebSocketListener. by destruct (truthy tok).
  - intros l Hl. simpl. split.
    + intros Hres.
      destruct (on_jobs_registered tok c st l jobs Hl) as [Hp Hr].
      specialize (Hr _ Hres). split; [done|]. intros jobs'.
      assert (Hnp : then_pending (on_jobs l jobs) = false).
      { destruct (then_pending (on_jobs l jobs)); [|done].
        destruct Hp as [Hp _]. rewrite Hp in Hres; done. }
      rewrite (on_jobs_delivered _ jobs' Hnp). simpl.
      by rewrite deliver_all_store, Hr.
    + intros Hc Hp job.
      destruct (on_jobs_unsubscribed tok c st l jobs Hl Hc Hp) as [Hcb Hst].
      unfold on_job. rewrite run_then_store. simpl.
      pose proof (deliver_all_store (conn (on_jobs l jobs)) job) as Hs.
      rewrite Hcb in Hs. by rewrite Hs.
Qed.

Lemma listener_applies_pushes_once_resolved_witness :
  exists l,
    setupWebSocketListener (Some "jwt") init
      (Sample.store_of [Sample.t1_pending; Sample.t2_downloading]) = Some l /\
    TaskStore.tasks (store (conn (on_job
      (on_jobs l [[ev_connect]; [request_auth "auth"]])
      [auth_response true "ok"; task_update Sample.t1_downloading])))
    = [Sample.t1_pending; Sample.t2_downloading] /\
    TaskStore.tasks (store (conn (on_jobs
      (on_jobs l [[ev_connect]; [request_auth "auth"];
                  [auth_response true "ok"; task_update Sample.t1_downloading]])
      [[task_update Sample.t1_downloading]])))
    = [Sample.t1_downloading; Sample.t2_downloading].
Proof.
  eexists. split; [reflexivity|]. split.
  - rewrite (proj2 (proj2 (listener_applies_pushes_once_resolved (Some "jwt") init
               (Sample.store_of [Sample.t1_pending; Sample.t2_downloading])
               [[ev_connect]; [request_auth "auth"]])
               _ eq_refl) eq_refl eq_refl
               [auth_response true "ok"; task_update Sample.t1_downloading]).
    reflexivity.
  - rewrite (proj2 (proj1 (proj2 (listener_applies_pushes_once_resolved (Some "jwt") init
               (Sample.store_of [Sample.t1_pending; Sample.t2_downloading])
               [[ev_connect]; [request_auth "auth"];
                [auth_response true "ok"; task_update Sample.t1_downloading]])
               _ eq_refl) eq_refl) [[task_update Sample.t1_downloading]]).
    reflexivity.
Defined.
End ListenerLaws.

(** ** The session store *)

Section SessionLaws.
Import AuthStore.
Implicit Types (a : State) (e : Event).

Lemma step_authenticated a e :
  (isAuthenticated a = true <-> is_Some (user a)) ->
  (isAuthenticated (step a e) = true <-> is_Some (user (step a e))) /\
  (isAuthenticated (step a e) = true ->
   isAuthenticated a = true \/ exists u, e = fetchUser_replied (Body (inr u))).
Proof.
  intros H.
  assert (Hno : false = true <-> is_Some (@None UserProfile)).
  { split; [done|]. by intros [? ?]. }
  destruct e as [|r| |r| |r| |]; simpl; unfold checkAuth;
    try destruct r as [|[err|x]]; repeat case_match; simpl;
    try (split; [done|by left]).
  split; [|eauto]. split; [eauto|done].
Qed.

(** X18. The session flag and the profile go together, and only the
    profile request sets them. After any sequence of calls and answers of
    [login], [register], [fetchUser], [checkAuth] and [logout], starting
    from the initial store, [isAuthenticated] is [true] exactly when a user
    profile is stored; and a step leaves [isAuthenticated] [true] only if it
    was [true] before or the step is a successful answer to [fetchUser]. *)
Theorem authenticated_iff_user (es : list Event) :
  (isAuthenticated (steps init es) = true <-> is_Some (user (steps init es))) /\
  forall e, isAuthenticated (step (steps init es) e) = true ->
            isAuthenticated (steps init es) = true \/
            exists u, e = fetchUser_replied (Body (inr u)).
Proof.
  assert (H : isAuthenticated (steps init es) = true <-> is_Some (user (steps init es))).
  { induction es as [|e es IH] using rev_ind.
    - simpl. split; [done|]. by intros [? ?].
    - unfold steps in *. rewrite foldl_app. simpl. by apply step_authenticated. }
  split; [done|]. intros e. by apply step_authenticated.
Qed.

Lemma authenticated_iff_user_witness :
  isAuthenticated (steps init [login_called; login_replied (Body (inr {| access_token := "jwt" |}))])
  = true \/
  exists u, fetchUser_replied (Body (inr {| profile_id := 1; username := "u" |}))
            = fetchUser_replied (Body (inr u)).
Proof.
  exact (proj2 (authenticated_iff_user
           [login_called; login_replied (Body (inr {| access_token := "jwt" |}))])
           (fetchUser_replied (Body (inr {| profile_id := 1; username := "u" |})))
           eq_refl).
Defined.

(** X19. What [login] answers. When the login request fails, [login]
    returns [false], sets [error] and leaves token and session flag alone.
    When it succeeds, the token is stored and [login] returns [true]
    whatever becomes of the profile request that follows: the session is
    authenticated only if that request succeeded, and the token stays
    stored either way. *)
Theorem login_result a (r : Rest LoginResponse) :
  ((forall response, r <> Body (inr response)) ->
   (login_resume a r).2 = Some false /\
   is_Some (error (login_resume a r).1) /\
   isLoading (login_resume a r).1 = false /\
   accessToken (login_resume a r).1 = accessToken a /\
   isAuthenticated (login_resume a r).1 = isAuthenticated a) /\
  (forall response, r = Body (inr response) ->
   (login_resume a r).2 = None /\
   accessToken (login_resume a r).1 = Some (access_token response) /\
   forall r2 : Rest UserProfile,
     let done := login_finish (login_resume a r).1 r2 in
     done.2 = true /\
     isLoading done.1 = false /\
     accessToken done.1 = Some (access_token response) /\
     (isAuthenticated done.1 = true <-> exists u, r2 = Body (inr u))).
Proof.
  split.
  - intros H. destruct r as [|[e|response]]; simpl; [done..|].
    by destruct (H response).
  - intros response ->. simpl. split; [done|]. split; [done|].
    intros [|[e|u]]; simpl; repeat split; try done; eauto;
      intros [u' Hu']; done.
Qed.

Lemma login_result_witness :
  let a1 := (login_resume (login_call init) (Body (inr {| access_token := "jwt" |}))).1 in
  (login_finish a1 Threw).2 = true /\
  isAuthenticated (login_finish a1 Threw).1 = false /\
  accessToken (login_finish a1 Threw).1 = Some "jwt".
Proof.
  destruct (proj2 (login_result (login_call init) (Body (inr {| access_token := "jwt" |})))
              {| access_token := "jwt" |} eq_refl) as [_ [_ H]].
  destruct (H Threw) as [Hres [_ [Htok _]]].
  split; [exact Hres|]. split; [reflexivity|exact Htok].
Defined.
End SessionLaws.

(** ** The request interceptor *)

Section InterceptorLaws.
Import ApiClient.

(** X20. The interceptor touches nothing but the [Authorization] header.
    The URL and every other header pass unchanged; a request to exactly
    [/auth/login] or [/auth/register] passes unchanged altogether, and so
    does every request while no token is stored; any other request leaves
    with [Authorization] set to [Bearer ] followed by the stored token. *)
Theorem interceptor_sets_bearer (accessToken : option string) (config : RequestConfig) :
  let config' := interceptor accessToken config in
  url config' = url config /\
  (forall h, h <> "Authorization" -> headers config' !! h = headers config !! h) /\
  (isPublicPath config = true <->
   url config = Some "/auth/login" \/ url config = Some "/auth/register") /\
  (isPublicPath config = true -> config' = config) /\
  (WebSocketAPI.truthy accessToken = None -> config' = config) /\
  (forall token,
      isPublicPath config = false ->
      WebSocketAPI.truthy accessToken = Some token ->
      headers config' !! "Authorization" = Some ("Bearer " +:+ token)).
Proof.
  simpl. unfold interceptor.
  split; [by repeat case_match|].
  split.
  { intros h Hh. repeat case_match; simpl; try done. by rewrite lookup_insert_ne. }
  split.
  { unfold isPublicPath, publicPaths. destruct (url config) as [u|];
      [|split; [done|intros [Hu|Hu]; discriminate Hu]].
    rewrite andb_true_iff, negb_true_iff, bool_decide_eq_false, bool_decide_eq_true.
    rewrite !elem_of_cons, elem_of_nil. split.
    - intros [_ [->|[->|[]]]]; eauto.
    - intros [Hu|Hu]; injection Hu as ->; split; eauto; done. }
  split; [by intros ->|].
  split; [intros ->; by case_match|].
  intros token -> ->. simpl. by rewrite lookup_insert_eq.
Qed.

Lemma interceptor_sets_bearer_witness :
  headers (interceptor (Some "jwt") (mkConfig (Some "/tasks/list") ∅)) !! "Authorization"
  = Some "Bearer jwt" /\
  interceptor (Some "jwt") (mkConfig (Some "/auth/login") ∅)
  = mkConfig (Some "/auth/login") ∅.
Proof.
  split.
  - exact (proj2 (proj2 (proj2 (proj2 (proj2 (interceptor_sets_bearer (Some "jwt")
             (mkConfig (Some "/tasks/list") ∅)))))) "jwt" eq_refl eq_refl).
  - exact (proj1 (proj2 (proj2 (proj2 (interceptor_sets_bearer (Some "jwt")
             (mkConfig (Some "/auth/login") ∅))))) eq_refl).
Defined.
End InterceptorLaws.

(** ** A whole store action *)

Section WholeActions.
Import TaskStore.
Implicit Types (s : State).

(** X21. The store's [error] tells how the last action went. When one of
    the four actions runs from its call to its end with nothing in between,
    then afterwards [isLoading] is [false], [error] is [null] exactly when
    the REST call answered with a success body, and after a failure the
    collection is the one the action started with. *)
Theorem error_reflects_outcome s taskId :
  (forall r : Rest TaskListResponse,
      let s' := fetchTasks_resume (fetchTasks_call s).1 r in
      isLoading s' = false /\
      (error s' = None <-> exists x, r = Body (inr x)) /\
      ((forall x, r <> Body (inr x)) -> tasks s' = tasks s)) /\
  (forall r : Rest TaskResponse,
      let s' := (terminateTask_resume (terminateTask_call s taskId).1 taskId r).1 in
      isLoading s' = false /\
      (error s' = None <-> exists x, r = Body (inr x)) /\
      ((forall x, r <> Body (inr x)) -> tasks s' = tasks s)) /\
  (forall r : Rest MessageResponse,
      let s' := (deleteTask_resume (deleteTask_call s taskId).1 taskId r).1 in
      isLoading s' = false /\
      (error s' = None <-> exists x, r = Body (inr x)) /\
      ((forall x, r <> Body (inr x)) -> tasks s' = tasks s)) /\
  (forall r : Rest TaskResponse,
      let s' := (redownloadTask_resume (redownloadTask_call s taskId).1 taskId r).1 in
      isLoading s' = false /\
      (error s' = None <-> exists x, r = Body (inr x)) /\
      ((forall x, r <> Body (inr x)) -> tasks s' = tasks s)).
Proof.
  repeat split; intros;
    match goal with
    | r : Rest _ |- _ => destruct r as [|[e|x]]
    end; simpl in *;
    repeat match goal with
    | |- context [if ?b then _ else _] => destruct b
    | H : ex _ |- _ => destruct H
    | H : forall x, Body (inr ?y) <> Body (inr x) |- _ => by destruct (H y)
    end; simpl; eauto; done.
Qed.

Lemma error_reflects_outcome_witness :
  let s := Sample.store_of [Sample.t1_pending] in
  tasks (deleteTask_resume (deleteTask_call s 1).1 1 Threw).1 = [Sample.t1_pending] /\
  error (deleteTask_resume (deleteTask_call s 1).1 1 Threw).1 <> None.
Proof.
  destruct (proj1 (proj2 (proj2 (error_reflects_outcome
              (Sample.store_of [Sample.t1_pending]) 1))) Threw) as [_ [Herr Hkeep]].
  split.
  - apply Hkeep. discriminate.
  - intros H. apply Herr in H as [x Hx]. discriminate Hx.
Defined.
End WholeActions.

(** ** How the parts compose *)

Section Composition.
Import TaskStore.

(** X22. After [logout] the token is gone for everyone who reads it:
    [checkAuth] starts no profile request, [setupWebSocketListener] opens no
    connection, and the request interceptor attaches no [Authorization]
    header. *)
Theorem logout_removes_token (a : AuthStore.State) c st config :
  AuthStore.checkAuth (AuthStore.logout a) = AuthStore.logout a /\
  Realtime.setupWebSocketListener (AuthStore.accessToken (AuthStore.logout a)) c st = None /\
  ApiClient.interceptor (AuthStore.accessToken (AuthStore.logout a)) config = config.
Proof.
  split; [done|]. split; [done|].
  unfold ApiClient.interceptor. simpl. by case_match.
Qed.

(** X23. A late answer does not bring a deleted task back. After a
    successful [deleteTask(taskId)], a successful answer to a
    [terminateTask(taskId)] or [redownloadTask(taskId)] that was still under
    way leaves the collection as the delete left it. *)
Theorem late_answer_after_delete s taskId (m : MessageResponse) (response : TaskResponse) :
  let s1 := (deleteTask_resume s taskId (Body (inr m))).1 in
  tasks (terminateTask_resume s1 taskId (Body (inr response))).1 = tasks s1 /\
  tasks (redownloadTask_resume s1 taskId (Body (inr response))).1 = tasks s1.
Proof.
  simpl.
  assert (E : findIndex (id_is taskId)
                (List.filter (fun t => negb (id_is taskId t)) (tasks s)) = -1).
  { apply findIndex_absent. intros t Ht. apply id_is_false.
    by eapply filter_out_id_absent. }
  unfold terminateTask_resume, redownloadTask_resume. simpl. by rewrite E.
Qed.

(** X24. One action through the view, from the click to the answer, with
    nothing in between. Starting with no call, once the action is called,
    its dialog confirmed where it has one, and the REST answer delivered,
    the view has issued exactly the one request of that action and id, the
    call is finished, the refs are cleared, the store is what the store
    action makes of the answer, and there is one success message if the
    store action reports success and no message at all otherwise. *)
Theorem one_action_through_the_view st a taskId r st' res :
  TasksView.store_resume (TasksView.store_call st a taskId).1 a taskId r = Some (st', res) ->
  TasksView.steps (TasksView.init st)
    (match a with
     | TasksView.redownload =>
         [TasksView.Invoke a taskId; TasksView.Replied 0 r]
     | _ =>
         [TasksView.Invoke a taskId; TasksView.Confirm 0 true; TasksView.Replied 0 r]
     end)
  = TasksView.mk TasksView.clear_refs st'
      [TasksView.mkCall a taskId TasksView.Finished]
      [TasksView.request_of a taskId]
      (if res then [TasksView.success (TasksView.success_text a)] else []).
Proof.
  intros H. destruct a; simpl in *; unfold TasksView.reply; simpl; by rewrite H.
Qed.

Lemma one_action_through_the_view_witness :
  TasksView.steps (TasksView.init (Sample.store_of [Sample.t5_terminated]))
    [TasksView.Invoke TasksView.delete 5; TasksView.Confirm 0 true;
     TasksView.Replied 0 (TasksView.message_reply (Body (inl {| error_of := "busy" |})))]
  = TasksView.mk TasksView.clear_refs
      (TaskStore.mk [Sample.t5_terminated] false (Some "busy"))
      [TasksView.mkCall TasksView.delete 5 TasksView.Finished]
      [DELETE_task 5] [].
Proof.
  exact (one_action_through_the_view (Sample.store_of [Sample.t5_terminated])
           TasksView.delete 5
           (TasksView.message_reply (Body (inl {| error_of := "busy" |})))
           (TaskStore.mk [Sample.t5_terminated] false (Some "busy")) false eq_refl).
Defined.
End Composition.
